(** * stm32-for-vscode: Makefile generation, extraction and file bucketing

    A shallow embedding of the string-list formatters, the prefix helper,
    the toolchain-path fragment, the custom-rule renderer and the Makefile
    template of [src/CreateMakefile.ts], of [sortFiles] from the
    project-file scanner, and of the Makefile extractor as the
    specification describes it, together with the properties of these
    functions that the specification of the repository states.

    A JavaScript string is modelled by the [string] of its UTF-8 bytes.
    [Array.prototype.sort] without a comparator orders strings by their
    UTF-16 code units; [Js.compareStrings] computes this order from the
    bytes. *)

From Stdlib Require Import List String Ascii Bool Arith ZArith Lia.
From Stdlib Require Import Permutation Sorting.Sorted.
Import ListNotations.

Local Open Scope string_scope.

(** ** Characters that cannot be written inside a literal *)

Definition LF : string := String (ascii_of_nat 10) EmptyString.
Definition TAB : string := String (ascii_of_nat 9) EmptyString.
Definition DQUOTE : string := String (ascii_of_nat 34) EmptyString.
Definition BACKSLASH : string := String (ascii_of_nat 92) EmptyString.

(** ** JavaScript and lodash primitives used by the sources *)

Module Js.

(** [_.uniq]: keeps the first occurrence of every value, in order. *)
Fixpoint uniq_from (seen arr : list string) : list string :=
  match arr with
  | [] => []
  | x :: rest =>
      if existsb (String.eqb x) seen then uniq_from seen rest
      else x :: uniq_from (x :: seen) rest
  end.

Definition uniq (arr : list string) : list string := uniq_from [] arr.

(** The code points that the bytes of a string encode in UTF-8 (one to
    four bytes each; the three-byte form also carries a surrogate that
    stands alone).  A byte that starts no such sequence counts for
    itself. *)
Definition isContinuation (b : N) : bool := ((128 <=? b) && (b <? 192))%N.

Fixpoint codePoints (s : string) : list N :=
  match s with
  | EmptyString => []
  | String c0 rest =>
      let b0 := N_of_ascii c0 in
      let alone := b0 :: codePoints rest in
      if (b0 <? 192)%N then alone
      else
        match rest with
        | EmptyString => alone
        | String c1 rest1 =>
            let b1 := N_of_ascii c1 in
            if negb (isContinuation b1) then alone
            else if (b0 <? 224)%N then
              ((b0 - 192) * 64 + (b1 - 128))%N :: codePoints rest1
            else
              match rest1 with
              | EmptyString => alone
              | String c2 rest2 =>
                  let b2 := N_of_ascii c2 in
                  if negb (isContinuation b2) then alone
                  else if (b0 <? 240)%N then
                    ((b0 - 224) * 4096 + (b1 - 128) * 64 + (b2 - 128))%N
                      :: codePoints rest2
                  else
                    match rest2 with
                    | EmptyString => alone
                    | String c3 rest3 =>
                        let b3 := N_of_ascii c3 in
                        if negb (isContinuation b3) || (248 <=? b0)%N
                        then alone
                        else
                          ((b0 - 240) * 262144 + (b1 - 128) * 4096
                           + (b2 - 128) * 64 + (b3 - 128))%N
                            :: codePoints rest3
                    end
              end
        end
  end.

(** The UTF-16 code units of a code point: itself below 0x10000, a
    surrogate pair from there on. *)
Definition utf16 (codePoint : N) : list N :=
  if (codePoint <? 65536)%N then [codePoint]
  else [ (55296 + N.shiftr (codePoint - 65536) 10)%N;
         (56320 + N.land (codePoint - 65536) 1023)%N ].

(** The UTF-16 code units of a string, as JavaScript holds it. *)
Definition codeUnits (s : string) : list N := flat_map utf16 (codePoints s).

Fixpoint compareUnits (a b : list N) : comparison :=
  match a, b with
  | [], [] => Eq
  | [], _ :: _ => Lt
  | _ :: _, [] => Gt
  | x :: a', y :: b' =>
      match (x ?= y)%N with
      | Eq => compareUnits a' b'
      | c => c
      end
  end.

(** The order of strings that [sort()] uses: code unit by code unit.
    Texts with the same code units are the same text when their bytes
    are well-formed; any others are told apart by their bytes. *)
Definition compareStrings (s1 s2 : string) : comparison :=
  match compareUnits (codeUnits s1) (codeUnits s2) with
  | Eq => String.compare s1 s2
  | c => c
  end.

Definition ltb (s1 s2 : string) : bool :=
  match compareStrings s1 s2 with Lt => true | _ => false end.

Definition leb (s1 s2 : string) : bool :=
  match compareStrings s1 s2 with Gt => false | _ => true end.

(** [Array.prototype.sort()] without a comparator: ascending order of the
    strings, equal elements keeping their relative order. *)
Fixpoint insert (x : string) (l : list string) : list string :=
  match l with
  | [] => [x]
  | y :: rest => if leb x y then x :: l else y :: insert x rest
  end.

Fixpoint sort (l : list string) : list string :=
  match l with
  | [] => []
  | x :: rest => insert x (sort rest)
  end.

(** [String.prototype.indexOf]: position of the first occurrence of
    [pat] in [s], or -1. *)
Fixpoint indexOf_from (i : Z) (s pat : string) : Z :=
  if prefix pat s then i
  else match s with
       | EmptyString => (-1)%Z
       | String _ rest => indexOf_from (i + 1)%Z rest pat
       end.

Definition indexOf (s pat : string) : Z := indexOf_from 0 s pat.

End Js.

(** ** [createStringList] and [createSingleLineStringList] *)

(** [if (prefix) { output += prefix; }] : an absent or empty prefix is
    falsy and adds nothing. *)
Definition appendPrefix (prefix : option string) (output : string) : string :=
  match prefix with
  | Some p => if (p =? "") then output else output ++ p
  | None => output
  end.

(** The callback of [sortedArray.map] in [createStringList], threading
    the accumulated [output]; [len] is [sortedArray.length]. *)
Definition stringListStep (prefix : option string) (len : nat)
    (output : string) (entry : string) (ind : nat) : string :=
  let output := appendPrefix prefix output in
  let output := output ++ entry in
  let output :=
    if (Z.of_nat ind <? Z.of_nat len - 1)%Z then output ++ " " ++ BACKSLASH
    else output in
  output ++ LF.

Fixpoint stringListLoop (prefix : option string) (len : nat)
    (entries : list string) (ind : nat) (output : string) : string :=
  match entries with
  | [] => output
  | entry :: rest =>
      stringListLoop prefix len rest (S ind)
        (stringListStep prefix len output entry ind)
  end.

Definition createStringList (arr : list string) (prefix : option string)
  : string :=
  let sortedArray := Js.sort (Js.uniq arr) in
  stringListLoop prefix (List.length sortedArray) sortedArray 0 "".

Definition singleLineStep (prefix : option string) (output entry : string)
  : string :=
  let output := appendPrefix prefix output in
  output ++ entry ++ " ".

Definition createSingleLineStringList (arr : list string)
    (prefix : option string) : string :=
  let sortedArray := Js.sort (Js.uniq arr) in
  fold_left (singleLineStep prefix) sortedArray "".

(** ** [createPrefixWhenNoneExists] *)

(** The [input] argument is typed [string], but the guard [!input] also
    covers an absent value; [None] stands for [undefined]. *)
Definition createPrefixWhenNoneExists (input : option string)
    (prefix : string) : string :=
  match input with
  | None => ""
  | Some s =>
      if (String.length s =? 0)%nat then ""
      else if (0 <=? Js.indexOf s prefix)%Z then s
      else prefix ++ s
  end.

(** ** Toolchain path fragment *)

(** The values a configuration field of type [string | boolean] (or a
    missing one) can hold at run time. *)
Inductive JsValue : Type :=
| JsUndefined
| JsNull
| JsBoolean (b : bool)
| JsNumber (n : Z)
| JsString (s : string).

Definition truthy (v : JsValue) : bool :=
  match v with
  | JsUndefined | JsNull => false
  | JsBoolean b => b
  | JsNumber n => negb (n =? 0)%Z
  | JsString s => negb (s =? "")
  end.

(** lodash [isString]. *)
Definition isString (v : JsValue) : bool :=
  match v with JsString _ => true | _ => false end.

(** lodash [isEmpty]: a string is empty when its length is 0; values
    that are not collections count as empty. *)
Definition isEmpty (v : JsValue) : bool :=
  match v with
  | JsString s => (String.length s =? 0)%nat
  | _ => true
  end.

(** [v !== '.'] *)
Definition notStrictEqualDot (v : JsValue) : bool :=
  match v with JsString s => negb (s =? ".") | _ => true end.

Module ToolChain.
Record t : Type := mk { armToolchainPath : JsValue }.
End ToolChain.

Module CustomRule.
Record t : Type := mk {
  command : string;
  rule : string;
  dependsOn : option string
}.
End CustomRule.

Module MakeInfo.
Record t : Type := mk {
  target : string;
  optimization : string;
  cDefs : list string;
  cxxDefs : list string;
  asDefs : list string;
  cSources : list string;
  cxxSources : list string;
  asmSources : list string;
  cIncludes : list string;
  cpu : string;
  fpu : string;
  floatAbi : string;
  cFlags : list string;
  cxxFlags : list string;
  assemblyFlags : list string;
  ldscript : string;
  libs : list string;
  libdir : list string;
  ldFlags : list string;
  targetMCU : string;
  tools : ToolChain.t;
  customMakefileRules : option (list CustomRule.t)
}.
End MakeInfo.

Section CreateMakefile.

(** [fsPathToPosix] is imported from [./Helpers], the two names from
    [./Definitions]; the functions below are parametric in them. *)
Variable fsPathToPosix : string -> string.
Variable STM32_ENVIRONMENT_FILE_NAME : string.
Variable makefileName : string.

Definition createGCCPathOutput (makeInfo : MakeInfo.t) : string :=
  let path := ToolChain.armToolchainPath (MakeInfo.tools makeInfo) in
  if truthy path && isString path then
    if truthy path && negb (isEmpty path) && notStrictEqualDot path then
      match path with
      | JsString s => "GCC_PATH=" ++ DQUOTE ++ fsPathToPosix s
      | _ => ""
      end
    else ""
  else "".

(** ** Custom rules *)

Definition bannerLine : string := "#######################################".

(** The reducer of [customMakefileRules]: [dependsOn] defaults to the
    empty string, and the rule block ends with a line of three tabs. *)
Definition customRuleStep (previousString : string)
    (currentValue : CustomRule.t) : string :=
  let command := CustomRule.command currentValue in
  let rule := CustomRule.rule currentValue in
  let dependsOn :=
    match CustomRule.dependsOn currentValue with
    | Some d => d
    | None => ""
    end in
  let newRule :=
    LF ++ bannerLine ++ LF
    ++ "# " ++ command ++ LF
    ++ bannerLine ++ LF
    ++ command ++ ": " ++ dependsOn ++ LF
    ++ TAB ++ rule ++ LF
    ++ TAB ++ TAB ++ TAB in
  previousString ++ LF ++ LF ++ newRule.

Definition customMakefileRules (makeInfo : MakeInfo.t) : string :=
  match MakeInfo.customMakefileRules makeInfo with
  | Some rules => fold_left customRuleStep rules ""
  | None => ""
  end.

(** ** The Makefile template *)

(** One element per line of the template literal of [createMakefile];
    the fragments produced by [createStringList] and
    [customMakefileRules] bring their own line breaks. *)
Definition createMakefileLines (makeInfo : MakeInfo.t) : list string :=
  [
    "##########################################################################################################################";
    "# File automatically-generated by STM32forVSCode";
    "##########################################################################################################################";
    "";
    "# ------------------------------------------------";
    "# Makefile used by STM32 For VSCode";
    "# WARNING: This file can be overwritten when project settings change";
    "# This Makefile can be used for CI/CD purposes to use it please make sure";
    "# you setup an environment file with the following name: " ++ STM32_ENVIRONMENT_FILE_NAME ++ ".";
    "# This file is sourced at the start of this Makefile and will be used to set";
    "# compiler paths and other tooling paths.";
    "# Do note that most variables can also be overwritten when invoking make";
    "# e.g to change the optimization flags";
    "# make -j 16 -f " ++ makefileName ++ " DEBUG=0 OPTIMIZATION=-Os";
    "#";
    "# ChangeLog :";
    "#" ++ TAB ++ "2017-02-10 - Several enhancements + project update mode";
    "#   2015-07-22 - first version";
    "#   2023-06-16 - Added .stm32env file inclusion";
    "#   2023-07-14 - Added file directory in the build folder";
    "#" ++ TAB ++ TAB ++ TAB ++ TAB ++ TAB ++ TAB ++ TAB ++ " - Added debug and release build options";
    "#" ++ TAB ++ TAB ++ TAB ++ TAB ++ TAB ++ TAB ++ TAB ++ " - Added multi platform support";
    "#" ++ TAB ++ TAB ++ TAB ++ TAB ++ TAB ++ TAB ++ TAB ++ " - Added help target";
    "#" ++ TAB ++ TAB ++ TAB ++ TAB ++ TAB ++ TAB ++ TAB ++ " - Added more documentation";
    "# ------------------------------------------------";
    "";
    "######################################";
    "# Environment Variables";
    "######################################";
    "# Imports the environment file in which the compiler and other tooling is set";
    "# for the build machine.";
    "# This can also be used to overwrite some makefile variables";
    "include " ++ STM32_ENVIRONMENT_FILE_NAME;
    "";
    "######################################";
    "# Target ";
    "######################################";
    "# This is the name of the embedded target which will be build";
    "# The final file name will also have debug or release appended to it.";
    "TARGET ?= " ++ MakeInfo.target makeInfo;
    "";
    "#######################################";
    "# Build directories";
    "#######################################";
    "# Build path can be overwritten when calling make or setting the environment variable";
    "# in " ++ STM32_ENVIRONMENT_FILE_NAME;
    "";
    "BUILD_DIRECTORY ?= build";
    "";
    "";
    "######################################";
    "# Optimization";
    "######################################";
    "# Optimization is switched based upon the DEBUG variable. If set to 1";
    "# it will be build in debug mode with the Og optimization flag (optimized for debugging).";
    "# If set to 0 (false) then by default the variable is used in the configuration yaml";
    "# This can also be overwritten using the environment variable or by overwriting it";
    "# by calling make with the OPTIMIZATION variable e.g.: ";
    "# make -f " ++ makefileName ++ " -j 16  OPTIMIZATION=Os";
    "";
    "# variable which determines if it is a debug build";
    "DEBUG ?= 1";
    "";
    "# debug flags when debug is defined";
    "OPTIMIZATION ?= " ++ MakeInfo.optimization makeInfo;
    "";
    "ifeq ($(DEBUG),1)";
    TAB ++ "# Sets debugging optimization -Og and the debug information output";
    TAB ++ "OPTIMIZATION_FLAGS += -Og -g -gdwarf -ggdb";
    TAB ++ "TARGET += -debug ";
    TAB ++ "RELEASE_DIRECTORY ?= $(BUILD_DIRECTORY)/debug";
    "else";
    TAB ++ "OPTIMIZATION_FLAGS += $(OPTIMIZATION)";
    TAB ++ "TARGET += -release";
    TAB ++ "RELEASE_DIRECTORY ?= $(BUILD_DIRECTORY)/release";
    "endif";
    "";
    "######################################";
    "# Definitions";
    "######################################";
    "";
    "# C definitions";
    "C_DEFINITIONS =  " ++ BACKSLASH;
    createStringList (MakeInfo.cDefs makeInfo) (Some "-D");
    "";
    "# C++ definitions";
    "CXX_DEFINITIONS =  " ++ BACKSLASH;
    createStringList (MakeInfo.cxxDefs makeInfo) (Some "-D");
    "";
    "# Assembly definitions";
    "AS_DEFINITIONS =  " ++ BACKSLASH;
    createStringList (MakeInfo.asDefs makeInfo) (Some "-D");
    "";
    "######################################";
    "# Source Files";
    "######################################";
    "";
    "";
    "# C sources";
    "C_SOURCES +=  " ++ BACKSLASH;
    createStringList (MakeInfo.cSources makeInfo) None;
    "";
    "CXX_SOURCES += " ++ BACKSLASH;
    createStringList (MakeInfo.cxxSources makeInfo) None;
    "";
    "# ASM sources";
    "AS_SOURCES +=  " ++ BACKSLASH;
    createStringList (MakeInfo.asmSources makeInfo) None;
    "";
    "";
    "######################################";
    "# Include Directories";
    "######################################";
    "# AS includes";
    "AS_INCLUDES = " ++ BACKSLASH;
    "";
    "# C includes";
    "C_INCLUDES =  " ++ BACKSLASH;
    createStringList (MakeInfo.cIncludes makeInfo) (Some "-I");
    "";
    "";
    "######################################";
    "# Target System Flags";
    "######################################";
    "# The specific flags for the target system";
    "# This sets things like hardware floating point and";
    "# which version a specific Cortex-M processor is.";
    "";
    "# cpu";
    "CPU = " ++ createPrefixWhenNoneExists (Some (MakeInfo.cpu makeInfo)) "-mcpu=";
    "";
    "# fpu";
    "FPU = " ++ createPrefixWhenNoneExists (Some (MakeInfo.fpu makeInfo)) "-mfpu=";
    "";
    "# float-abi";
    "FLOAT-ABI = " ++ createPrefixWhenNoneExists (Some (MakeInfo.floatAbi makeInfo)) "-mfloat-abi=";
    "";
    "# mcu";
    "MCU_FLAGS = $(CPU) -mthumb $(FPU) $(FLOAT-ABI)";
    "";
    "";
    "######################################";
    "# C and CPP Flags";
    "######################################";
    "";
    "# additional flags provided by the STM32 for VSCode configuration file";
    "ADDITIONAL_C_FLAGS := " ++ createSingleLineStringList (MakeInfo.cFlags makeInfo) None;
    "ADDITIONAL_CXX_FLAGS := " ++ createSingleLineStringList (MakeInfo.cxxFlags makeInfo) None;
    "ADDITIONAL_AS_FLAGS := " ++ createSingleLineStringList (MakeInfo.assemblyFlags makeInfo) None;
    "";
    "# Provides dependency information about header files";
    "# This is used to recompile when a source file depends on";
    "# information from a header file";
    "DEPENDENCY_FLAGS = -MMD -MP -MF" ++ DQUOTE ++ "$(@:%.o=%.d)" ++ DQUOTE;
    "";
    "# Output a list file for the compiled source file.";
    "# This is a representative of the source code in assembly";
    "ASSEMBLER_LIST_OUTPUT_FLAG = -Wa,-a,-ad,-alms=$(@D)/$($(notdir $@):%.o=%.lst)";
    "";
    "# Combining the compilation flags with language specific flags and MCU specific flags";
    "C_FLAGS = " ++ BACKSLASH;
    TAB ++ "$(MCU_FLAGS) " ++ BACKSLASH;
    TAB ++ "$(C_DEFINITIONS) " ++ BACKSLASH;
    TAB ++ "$(C_INCLUDES) " ++ BACKSLASH;
    TAB ++ "$(OPTIMIZATION_FLAGS) " ++ BACKSLASH;
    TAB ++ "$(DEPENDENCY_FLAGS) " ++ BACKSLASH;
    TAB ++ "$(ADDITIONAL_C_FLAGS) " ++ BACKSLASH;
    TAB ++ "$(ASSEMBLER_LIST_OUTPUT_FLAG)";
    "";
    "CXX_FLAGS = " ++ BACKSLASH ++ " ";
    TAB ++ "$(MCU_FLAGS) " ++ BACKSLASH;
    TAB ++ "$(CXX_DEFINITIONS) " ++ BACKSLASH;
    TAB ++ "$(C_INCLUDES) " ++ BACKSLASH;
    TAB ++ "$(OPTIMIZATION_FLAGS) " ++ BACKSLASH;
    TAB ++ "$(DEPENDENCY_FLAGS) " ++ BACKSLASH;
    TAB ++ "$(ADDITIONAL_CXX_FLAGS) " ++ BACKSLASH;
    TAB ++ "$(ASSEMBLER_LIST_OUTPUT_FLAG)";
    "";
    "AS_FLAGS = $(C_FLAGS) $(AS_DEFINITIONS) $(ADDITIONAL_AS_FLAGS)";
    "";
    "######################################";
    "# Linker Flags";
    "######################################";
    "# linker script. This script will determine where certain sections will";
    "# be place in memory.";
    "# For a good reference look at: https://blog.thea.codes/the-most-thoroughly-commented-linker-script/";
    "LINKER_SCRIPT := -T" ++ MakeInfo.ldscript makeInfo;
    "";
    "# libraries";
    "LIBRARIES := " ++ BACKSLASH;
    createStringList (MakeInfo.libs makeInfo) (Some "-l");
    "";
    "# library directories";
    "LIBRARY_DIRECTORIES := " ++ BACKSLASH;
    createStringList (MakeInfo.libdir makeInfo) (Some "-L");
    "";
    "# Additional linker flags Flags from the yaml configuration file";
    "# can be overwritten in the environment file";
    "ADDITIONAL_LINKER_FLAGS ?= " ++ createSingleLineStringList (MakeInfo.ldFlags makeInfo) None;
    "";
    "# Flags for outputting a map file";
    "# -Wl,-Map= flag will output the map file to the specified file";
    "# --cref will generate a cross reference table in the map file";
    "LINKER_MAP_FLAGS ?= -Wl,-Map=$(RELEASE_DIRECTORY)/$(TARGET).map,--cref";
    "";
    "# Flags for cleaning up code at link time";
    "# --gc-sections will eliminate dead code e.g. unused functions";
    "LINKER_CLEAN_UP_FLAGS ?= -Wl,--gc-sections";
    "";
    "LINKER_FLAGS = " ++ BACKSLASH;
    TAB ++ "$(MCU_FLAGS) " ++ BACKSLASH;
    TAB ++ "$(LINKER_SCRIPT) " ++ BACKSLASH;
    TAB ++ "$(LIBRARY_DIRECTORIES) " ++ BACKSLASH;
    TAB ++ "$(LIBRARIES) " ++ BACKSLASH;
    TAB ++ "$(LINKER_MAP_FLAGS) " ++ BACKSLASH;
    TAB ++ "$(LINKER_CLEAN_UP_FLAGS)";
    "";
    "#######################################";
    "# Tools";
    "#######################################";
    "ARM_PREFIX = arm-none-eabi-";
    "POSTFIX = " ++ DQUOTE;
    "PREFIX = " ++ DQUOTE;
    "# The gcc compiler bin path can be defined in the make command via ARM_GCC_PATH variable (e.g.: make ARM_GCC_PATH=xxx)";
    "# or it can be added to the PATH environment variable.";
    "# By default the variable be used from the environment file: " ++ STM32_ENVIRONMENT_FILE_NAME ++ ".";
    "# if it is not defined ";
    "";
    "ifdef ARM_GCC_PATH";
    TAB ++ TAB ++ "CC = $(PREFIX)$(ARM_GCC_PATH)/$(ARM_PREFIX)gcc$(POSTFIX)";
    TAB ++ TAB ++ "CXX = $(PREFIX)$(ARM_GCC_PATH)/$(ARM_PREFIX)g++$(POSTFIX)";
    TAB ++ TAB ++ "AS = $(PREFIX)$(ARM_GCC_PATH)/$(ARM_PREFIX)gcc$(POSTFIX) -x assembler-with-cpp";
    TAB ++ TAB ++ "CP = $(PREFIX)$(ARM_GCC_PATH)/$(ARM_PREFIX)objcopy$(POSTFIX)";
    TAB ++ TAB ++ "SZ = $(PREFIX)$(ARM_GCC_PATH)/$(ARM_PREFIX)size$(POSTFIX)";
    "else";
    TAB ++ "CC ?= $(ARM_PREFIX)gcc";
    TAB ++ "CXX ?= $(ARM_PREFIX)g++$";
    TAB ++ "AS ?= $(ARM_PREFIX)gcc -x assembler-with-cpp";
    TAB ++ "CP ?= $(ARM_PREFIX)objcopy";
    TAB ++ "SZ ?= $(ARM_PREFIX)size";
    "endif";
    "";
    "HEX = $(CP) -O ihex";
    "BIN = $(CP) -O binary -S";
    "";
    "# Flash and debug tools";
    "# Default is openocd however will be gotten from the ";
    "OPENOCD ?= openocd";
    "";
    "REMOVE_DIRECTORY_COMMAND = rm -fR";
    "MKDIR_COMMAND = mkdir";
    "ifeq ($(OS),Windows_NT)";
    TAB ++ "REMOVE_DIRECTORY_COMMAND = cmd /c rd /s /q";
    "else";
    TAB ++ "MKDIR_COMMAND += -p";
    "endif";
    "";
    "#######################################";
    "# Build rules ";
    "#######################################";
    "";
    "# Create object list";
    "# Create object list";
    "OBJECTS = $(addprefix $(RELEASE_DIRECTORY)/,$(addsuffix .o,$(basename $(C_SOURCES))))";
    "# objects for the different C++ file extensions";
    "OBJECTS += $(addprefix $(RELEASE_DIRECTORY)/,$(addsuffix .o,$(basename $(CXX_SOURCES))))";
    "# Objects for assembly code";
    "OBJECTS += $(addprefix $(RELEASE_DIRECTORY)/,$(addsuffix .o,$(basename $(AS_SOURCES))))";
    "";
    "# Dependency files";
    "DEPENDENCY_FILES = $(OBJECTS:.o=.d)";
    "";
    "";
    "# the tree of folders which needs to be present based on the object files";
    "BUILD_TREE = $(sort $(dir $(OBJECTS)))";
    "";
    "";
    "";
    "#######################################";
    "# Build targets";
    "#######################################";
    "# default action: build all";
    ".PHONY: all";
    "all: $(BUILD_DIR)/$(TARGET).elf $(BUILD_DIR)/$(TARGET).hex $(BUILD_DIR)/$(TARGET).bin";
    "";
    "# Makes the build directory";
    "$(BUILD_DIRECTORY):";
    TAB ++ "$(MKDIR_COMMAND) $@";
    "";
    "# Makes the release folder";
    "$(RELEASE_DIRECTORY): | $(BUILD_DIRECTORY)";
    TAB ++ "$(MKDIR_COMMAND) $@";
    "";
    "$(BUILD_TREE):";
    TAB ++ "$(MKDIR_COMMAND) $@";
    "";
    "";
    "#######################################";
    "# Build Firmware";
    "#######################################";
    "";
    "FINAL_TARGET_NAME = $(RELEASE_DIRECTORY)/$(TARGET)";
    "ELF_TARGET = $(FINAL_TARGET_NAME).elf";
    "";
    "$(FINAL_TARGET_NAME).elf: $(OBJECTS) " ++ makefileName ++ " ";
    TAB ++ "$(CC) $(OBJECTS) $(LDFLAGS) -o $@";
    TAB ++ "$(SZ) $@";
    "";
    "$(FINAL_TARGET_NAME).hex: $(FINAL_TARGET_NAME).elf ";
    TAB ++ "$(HEX) $< $@";
    "";
    "$(FINAL_TARGET_NAME).bin: $(FINAL_TARGET_NAME).elf ";
    TAB ++ "$(BIN) $< $@";
    "";
    "";
    "#######################################";
    "# Build rules";
    "#######################################";
    "";
    "sourcefile = $(patsubst $(RELEASE_FOLDER)/%.o,%.c,$(1))";
    "# Rules for creating the object files from the source files";
    "# c files";
    "$(RELEASE_DIRECTORY)/%.o: %.c $(RELEASE_DIRECTORY)/%.d | $(BUILD_TREE)";
    TAB ++ "$(CC) $(C_FLAGS) -c $< -o $@";
    "";
    "# cpp files";
    "$(RELEASE_DIRECTORY)/%.o: %.cpp $(RELEASE_DIRECTORY)/%.d | $(BUILD_TREE)";
    TAB ++ "$(CXX) $(CXX_FLAGS) -c $< -o $@";
    "$(RELEASE_DIRECTORY)/%.o: %.cc $(RELEASE_DIRECTORY)/%.d | $(BUILD_TREE)";
    TAB ++ "$(CXX) $(CXX_FLAGS) -c $< -o $@";
    "$(RELEASE_DIRECTORY)/%.o: %.cp $(RELEASE_DIRECTORY)/%.d | $(BUILD_TREE)";
    TAB ++ "$(CXX) $(CXX_FLAGS) -c $< -o $@";
    "$(RELEASE_DIRECTORY)/%.o: %.CPP $(RELEASE_DIRECTORY)/%.d | $(BUILD_TREE)";
    TAB ++ "$(CXX) $(CXX_FLAGS) -c $< -o $@";
    "$(RELEASE_DIRECTORY)/%.o: %.c++ $(RELEASE_DIRECTORY)/%.d | $(BUILD_TREE)";
    TAB ++ "$(CXX) $(CXX_FLAGS) -c $< -o $@";
    "$(RELEASE_DIRECTORY)/%.o: %.C++ $(RELEASE_DIRECTORY)/%.d | $(BUILD_TREE)";
    TAB ++ "$(CXX) $(CXX_FLAGS) -c $< -o $@";
    "";
    "# assembly files";
    "$(RELEASE_DIRECTORY)/%.o: %.s $(RELEASE_DIRECTORY)/%.d | $(BUILD_TREE)";
    TAB ++ "$(CXX) $(CXX_FLAGS) -c $< -o $@";
    "$(RELEASE_DIRECTORY)/%.o: %.S $(RELEASE_DIRECTORY)/%.d | $(BUILD_TREE)";
    TAB ++ "$(CXX) $(CXX_FLAGS) -c $< -o $@";
    "";
    "#######################################";
    "# Build targets";
    "#######################################";
    "# Makes the build directory";
    "$(BUILD_DIRECTORY):";
    TAB ++ "$(MKDIR_COMMAND) $@";
    "";
    "# Makes the release folder";
    "$(RELEASE_DIRECTORY): | $(BUILD_DIRECTORY)";
    TAB ++ "$(MKDIR_COMMAND) $@";
    "";
    "$(BUILD_TREE):";
    TAB ++ "$(MKDIR_COMMAND) $@";
    "";
    "#######################################";
    "# All";
    "#######################################";
    "# default action: build all";
    ".PHONY: all";
    "all: $(FINAL_TARGET_NAME).elf $(FINAL_TARGET_NAME).hex $(FINAL_TARGET_NAME).bin";
    "";
    "#######################################";
    "# flash";
    "#######################################";
    "flash: $(FINAL_TARGET_NAME).elf";
    TAB ++ "$(OPENOCD) -f ./openocd.cfg -c " ++ DQUOTE ++ "program $(FINAL_TARGET_NAME).elf verify reset exit" ++ DQUOTE;
    "";
    "#######################################";
    "# erase";
    "#######################################";
    "erase: $(BUILD_DIR)/$(TARGET).elf";
    TAB ++ "$(OPENOCD) -f ./openocd.cfg -c " ++ DQUOTE ++ "init; reset halt; " ++ MakeInfo.targetMCU makeInfo ++ " mass_erase 0; exit" ++ DQUOTE;
    "";
    "#######################################";
    "# clean up";
    "#######################################";
    "";
    "clean:";
    TAB ++ "$(REMOVE_DIRECTORY_COMMAND) $(BUILD_DIR)";
    "";
    "#######################################";
    "# custom makefile rules";
    "#######################################";
    "";
    customMakefileRules makeInfo;
    TAB;
    "#######################################";
    "# dependencies";
    "#######################################";
    "-include $(wildcard $(RELEASE_DIRECTORY)/*.d)";
    "";
    "# *** EOF ***"
  ].

Definition createMakefile (makeInfo : MakeInfo.t) : string :=
  String.concat LF (createMakefileLines makeInfo).

End CreateMakefile.

(** ** [sortFiles] *)

(** [_.toLower] on the characters that matter for an extension: the
    letters A-Z are mapped to a-z.  No character outside A-Z lower-cases
    to one of the letters of the extensions tested below. *)
Definition toLowerChar (c : ascii) : ascii :=
  let n := nat_of_ascii c in
  if ((65 <=? n) && (n <=? 90))%nat then ascii_of_nat (n + 32) else c.

Fixpoint toLower (s : string) : string :=
  match s with
  | EmptyString => EmptyString
  | String c rest => String (toLowerChar c) (toLower rest)
  end.

(** [s.split(sep)] for a one-character separator; the result is never
    empty. *)
Fixpoint split (sep : ascii) (s : string) : list string :=
  match s with
  | EmptyString => [EmptyString]
  | String c rest =>
      if Ascii.eqb c sep then EmptyString :: split sep rest
      else match split sep rest with
           | seg :: segs => String c seg :: segs
           | [] => [String c EmptyString]
           end
  end.

(** [_.toLower(entry.split('.').pop())] *)
Definition extension (entry : string) : string :=
  toLower (List.last (split "."%char entry) EmptyString).

(** A JavaScript array of strings: its elements, and the properties
    other than indices that have been set on the array object. *)
Module JsArray.
Record t : Type := mk {
  elements : list string;
  properties : list (string * list string)
}.
Definition empty : t := mk [] [].
Definition push (a : t) (x : string) : t :=
  mk (elements a ++ [x]) (properties a).
(** [_.set(a, key, value)] with a key that is not an index. *)
Definition set (a : t) (key : string) (value : list string) : t :=
  mk (elements a) ((key, value) :: properties a).
(** [a.sort()], in place. *)
Definition sort (a : t) : t := mk (Js.sort (elements a)) (properties a).
End JsArray.

Module BuildFiles.
Record t : Type := mk {
  cSources : JsArray.t;
  cxxSources : JsArray.t;
  assemblySources : JsArray.t;
  libraryDirectories : JsArray.t
}.
Definition new : t :=
  mk JsArray.empty JsArray.empty JsArray.empty JsArray.empty.
End BuildFiles.

Section SortFiles.

(** [path.posix.dirname] of Node. *)
Variable dirname : string -> string.

(** The callback of the classification pass. *)
Definition classify (output : BuildFiles.t) (entry : string) : BuildFiles.t :=
  let extension := extension entry in
  let '(BuildFiles.mk c cxx asm lib) := output in
  if (extension =? "cpp") || (extension =? "cxx") || (extension =? "cc") then
    BuildFiles.mk c (JsArray.push cxx entry) asm lib
  else if (extension =? "c") then
    BuildFiles.mk (JsArray.push c entry) cxx asm lib
  else if (extension =? "h") || (extension =? "hpp") then
    output
  else if (extension =? "s") then
    BuildFiles.mk c cxx (JsArray.push asm entry) lib
  else if (extension =? "a") then
    BuildFiles.mk c cxx asm (JsArray.push lib (dirname entry))
  else output.

(** The callback of the final [_.forEach(output, (entry, key) => ...)]:
    [_.set(entry, key, _.uniq(entry))] stores the deduplicated copy as a
    property named [key] of the array [entry] itself, then [entry.sort()]
    sorts the array in place. *)
Definition uniqAndSort (entry : JsArray.t) (key : string) : JsArray.t :=
  JsArray.sort (JsArray.set entry key (Js.uniq (JsArray.elements entry))).

Definition sortFiles (list : list string) : BuildFiles.t :=
  let output := fold_left classify list BuildFiles.new in
  BuildFiles.mk
    (uniqAndSort (BuildFiles.cSources output) "cSources")
    (uniqAndSort (BuildFiles.cxxSources output) "cxxSources")
    (uniqAndSort (BuildFiles.assemblySources output) "assemblySources")
    (uniqAndSort (BuildFiles.libraryDirectories output) "libraryDirectories").

End SortFiles.

(** ** Reference renderings used to state the formatter properties *)

(** The text a prefix contributes in front of an entry. *)
Definition prefixText (prefix : option string) : string :=
  match prefix with Some p => p | None => "" end.

(** One line per entry, a continuation marker on every line but the
    last, a line break after every line. *)
Fixpoint continuedLines (p : string) (entries : list string) : string :=
  match entries with
  | [] => ""
  | [x] => p ++ x ++ LF
  | x :: rest => p ++ x ++ " " ++ BACKSLASH ++ LF ++ continuedLines p rest
  end.

(** Ascending runs of strings, strictly and weakly. *)
Definition ascending (l : list string) : Prop :=
  StronglySorted (fun a b => Js.ltb a b = true) l.

Definition nonDescending (l : list string) : Prop :=
  StronglySorted (fun a b => Js.leb a b = true) l.

(** [p] occurs somewhere inside [s]. *)
Definition occursIn (p s : string) : Prop := exists a b, s = a ++ p ++ b.

(** The closing part of the template when no custom rule is spliced in:
    the section header of the custom rules, the blank lines of the
    template, and the dependencies section. *)
Definition templateClosing : string :=
  String.concat LF [
    "#######################################";
    "# custom makefile rules";
    "#######################################";
    "";
    "";
    TAB;
    "#######################################";
    "# dependencies";
    "#######################################";
    "-include $(wildcard $(RELEASE_DIRECTORY)/*.d)";
    "";
    "# *** EOF ***"
  ].

(** ** The extractor

    The module [getInfo/getCubeMakefileInfo] is present through its unit
    tests only.  Its functions are modelled from the specification
    (sections 4.2, 4.5 and 6); the unit tests fix the examples. *)

Definition isWhitespace (c : ascii) : bool :=
  match nat_of_ascii c with
  | 9 | 10 | 11 | 12 | 13 | 32 => true
  | _ => false
  end.

Fixpoint trimLeft (s : string) : string :=
  match s with
  | EmptyString => EmptyString
  | String c rest => if isWhitespace c then trimLeft rest else s
  end.

Fixpoint trimRight (s : string) : string :=
  match s with
  | EmptyString => EmptyString
  | String c rest =>
      match trimRight rest with
      | EmptyString => if isWhitespace c then EmptyString else String c EmptyString
      | rest' => String c rest'
      end
  end.

Definition trim (s : string) : string := trimRight (trimLeft s).

Fixpoint lastChar (s : string) : option ascii :=
  match s with
  | EmptyString => None
  | String c EmptyString => Some c
  | String _ rest => lastChar rest
  end.

Fixpoint dropLast (s : string) : string :=
  match s with
  | EmptyString => EmptyString
  | String _ EmptyString => EmptyString
  | String c rest => String c (dropLast rest)
  end.

Fixpoint dropChars (n : nat) (s : string) : string :=
  match n, s with
  | S n', String _ rest => dropChars n' rest
  | _, _ => s
  end.

(** The lines of a text. *)
Definition textLines (text : string) : list string :=
  split (ascii_of_nat 10) text.

(** Modelled from the spec: what [removePrefixes] does to one entry;
    the body of [removePrefixes] is missing.  One leading occurrence of
    the prefix is stripped, the remainder is left intact, an entry
    without the prefix is unchanged (section 4.2). *)
Definition removePrefix (prefix entry : string) : string :=
  if String.prefix prefix entry then dropChars (String.length prefix) entry
  else entry.

(** Modelled from the spec: the body of [removePrefixes] is missing; by
    section 4.2 it strips exactly one leading occurrence of the prefix
    from each entry of the list. *)
Definition removePrefixes (information : list string) (prefix : string)
  : list string :=
  map (removePrefix prefix) information.

(** Modelled from the spec: the test for a trailing continuation
    marker, missing with [extractMultiLineInfo]; a line carries the
    marker when a backslash is its last character, trailing blanks
    aside. *)
Definition endsWithMarker (line : string) : bool :=
  match lastChar (trimRight line) with
  | Some c => Ascii.eqb c (ascii_of_nat 92)
  | None => false
  end.

Definition isBlank (line : string) : bool := (trimLeft line =? "").

(** Modelled from the spec: the entry a continuation line holds,
    missing with [extractMultiLineInfo]; the line without its marker,
    trimmed (section 4.5). *)
Definition entryOf (line : string) : string :=
  if endsWithMarker line then trim (dropLast (trimRight line))
  else trim line.

(** Case-insensitive match of a variable name at the start of a line;
    the remainder of the line on success. *)
Fixpoint afterName (name line : string) : option string :=
  match name with
  | EmptyString => Some line
  | String c name' =>
      match line with
      | EmptyString => None
      | String d line' =>
          if Ascii.eqb (toLowerChar c) (toLowerChar d)
          then afterName name' line'
          else None
      end
  end.

(** Modelled from the spec: the assignment syntaxes the extractor
    accepts, missing with [extractSingleLineInfo]; section 4.5 speaks of
    the common assignment syntaxes, taken here as the operators [=],
    [+=], [:=] and [?=] of a Makefile. *)
Definition afterOperator (rest : string) : option string :=
  if String.prefix "=" rest then Some (dropChars 1 rest)
  else if String.prefix "+=" rest || String.prefix ":=" rest
          || String.prefix "?=" rest
  then Some (dropChars 2 rest)
  else None.

(** Modelled from the spec: the right-hand side of [line] when it
    assigns the variable [name], missing with [extractSingleLineInfo];
    the name is matched without regard to case (section 4.5). *)
Definition assignedValue (name line : string) : option string :=
  match afterName name (trimLeft line) with
  | Some rest => afterOperator (trimLeft rest)
  | None => None
  end.

Definition isAssignmentOf (name line : string) : bool :=
  match assignedValue name line with Some _ => true | None => false end.

(** Modelled from the spec: locating the assignment, missing with
    [extractMultiLineInfo]; the first line assigning [name], with the
    lines after it. *)
Fixpoint locateAssignment (name : string) (lines : list string)
  : option (string * list string) :=
  match lines with
  | [] => None
  | line :: rest =>
      if isAssignmentOf name line then Some (line, rest)
      else locateAssignment name rest
  end.

(** Modelled from the spec: collecting the continuation lines,
    missing with [extractMultiLineInfo]; the lines continuing a line
    that ended with the marker are taken up to and including the first
    without a marker (section 4.5); a blank line ends the group and
    holds no entry. *)
Fixpoint continuationLines (lines : list string) : list string :=
  match lines with
  | [] => []
  | line :: rest =>
      if isBlank line then []
      else if endsWithMarker line then line :: continuationLines rest
      else [line]
  end.

(** Modelled from the spec: the body of [extractMultiLineInfo] is
    missing; by section 4.5 it locates the assignment of the variable
    (case-insensitive name, any common assignment operator), collects
    the continuation lines that follow until a line without the marker
    is reached, and gives each of them, trimmed, as one entry; it gives
    the empty list when the variable is absent or has no continuation
    lines. *)
Definition extractMultiLineInfo (name makefile : string) : list string :=
  match locateAssignment name (textLines makefile) with
  | Some (line, rest) =>
      if endsWithMarker line then map entryOf (continuationLines rest)
      else []
  | None => []
  end.

(** The words of a line: maximal runs of characters other than
    whitespace; [current] is the word being read. *)
Fixpoint wordsFrom (current : string) (s : string) : list string :=
  match s with
  | EmptyString => if (current =? "") then [] else [current]
  | String c rest =>
      if isWhitespace c then
        if (current =? "") then wordsFrom "" rest
        else current :: wordsFrom "" rest
      else wordsFrom (current ++ String c EmptyString) rest
  end.

Definition words (s : string) : list string := wordsFrom "" s.

(** Modelled from the spec: the body of [extractlibraries] is missing;
    by section 4.5 it takes the value of the libraries assignment, on
    the assignment line and on its continuation lines, splits it into
    words at whitespace and keeps, in order, the words that start with
    the library marker [-l]. *)
Definition extractlibraries (makefile : string) : list string :=
  match locateAssignment "libraries" (textLines makefile) with
  | Some (line, rest) =>
      let value :=
        match assignedValue "libraries" line with
        | Some v => v
        | None => ""
        end in
      let continued :=
        if endsWithMarker line then continuationLines rest else [] in
      filter (String.prefix "-l") (flat_map words (value :: continued))
  | None => []
  end.

(** The structural fields of the extractor's result. *)
Module ExtractedMakefileInfo.
Record t : Type := mk {
  cSources : list string;
  cxxSources : list string;
  assemblySources : list string;
  cIncludeDirectories : list string;
  cDefinitions : list string;
  cxxDefinitions : list string;
  assemblyDefinitions : list string;
  libraries : list string;
  libraryDirectories : list string
}.
End ExtractedMakefileInfo.

(** Modelled from the spec: the body of [extractMakefileInfo] is
    missing; by section 4.5 it applies the field rules per field, here
    for the source, include, definition and library groups, each under
    the variable name that section 6 fixes for the Makefile text.  As in
    the unit test of the extractor, the entries keep their flag prefix;
    [removePrefixes] normalises them. *)
Definition extractMakefileInfo (makefile : string)
  : ExtractedMakefileInfo.t :=
  ExtractedMakefileInfo.mk
    (extractMultiLineInfo "C_SOURCES" makefile)
    (extractMultiLineInfo "CXX_SOURCES" makefile)
    (extractMultiLineInfo "AS_SOURCES" makefile)
    (extractMultiLineInfo "C_INCLUDES" makefile)
    (extractMultiLineInfo "C_DEFINITIONS" makefile)
    (extractMultiLineInfo "CXX_DEFINITIONS" makefile)
    (extractMultiLineInfo "AS_DEFINITIONS" makefile)
    (extractlibraries makefile)
    (extractMultiLineInfo "LIBRARY_DIRECTORIES" makefile).

(** ** The round trip *)

(** Equality of lists as sets. *)
Definition sameMembers (l1 l2 : list string) : Prop :=
  forall x, In x l1 <-> In x l2.

(** Extraction of the generated text recovers the nine groups of the
    description, prefixes removed, as sets. *)
Definition roundTrip (envFile makefileName : string) (m : MakeInfo.t)
  : Prop :=
  let out := extractMakefileInfo (createMakefile envFile makefileName m) in
  sameMembers (ExtractedMakefileInfo.cSources out) (MakeInfo.cSources m)
  /\ sameMembers (ExtractedMakefileInfo.cxxSources out)
       (MakeInfo.cxxSources m)
  /\ sameMembers (ExtractedMakefileInfo.assemblySources out)
       (MakeInfo.asmSources m)
  /\ sameMembers
       (removePrefixes (ExtractedMakefileInfo.cIncludeDirectories out) "-I")
       (MakeInfo.cIncludes m)
  /\ sameMembers
       (removePrefixes (ExtractedMakefileInfo.cDefinitions out) "-D")
       (MakeInfo.cDefs m)
  /\ sameMembers
       (removePrefixes (ExtractedMakefileInfo.cxxDefinitions out) "-D")
       (MakeInfo.cxxDefs m)
  /\ sameMembers
       (removePrefixes (ExtractedMakefileInfo.assemblyDefinitions out) "-D")
       (MakeInfo.asDefs m)
  /\ sameMembers
       (removePrefixes (ExtractedMakefileInfo.libraries out) "-l")
       (MakeInfo.libs m)
  /\ sameMembers
       (removePrefixes (ExtractedMakefileInfo.libraryDirectories out) "-L")
       (MakeInfo.libdir m).

(** Conditions on the characters of a string. *)
Fixpoint allChars (ok : ascii -> bool) (s : string) : bool :=
  match s with
  | EmptyString => true
  | String c rest => ok c && allChars ok rest
  end.

Definition singleLine : string -> bool :=
  allChars (fun c => negb (Ascii.eqb c (ascii_of_nat 10))).

Definition noWhitespace : string -> bool :=
  allChars (fun c => negb (isWhitespace c)).

Definition noEquals : string -> bool :=
  allChars (fun c => negb (Ascii.eqb c "="%char)).

(** A token: not empty, free of whitespace, not ending in a backslash. *)
Definition isToken (s : string) : bool :=
  negb (s =? "") && noWhitespace s
  && match lastChar s with
     | Some c => negb (Ascii.eqb c (ascii_of_nat 92))
     | None => true
     end.

Definition isSourceToken (s : string) : bool := isToken s && noEquals s.

(** The descriptions on which the round trip is stated: the entries of
    the nine groups are tokens, those of the source groups without [=],
    and the text fields rendered before the last group hold no line
    break. *)
Definition wellFormed (m : MakeInfo.t) : bool :=
  singleLine (MakeInfo.target m)
  && singleLine (MakeInfo.optimization m)
  && singleLine (MakeInfo.cpu m)
  && singleLine (MakeInfo.fpu m)
  && singleLine (MakeInfo.floatAbi m)
  && singleLine (MakeInfo.ldscript m)
  && forallb singleLine (MakeInfo.cFlags m)
  && forallb singleLine (MakeInfo.cxxFlags m)
  && forallb singleLine (MakeInfo.assemblyFlags m)
  && forallb isSourceToken (MakeInfo.cSources m)
  && forallb isSourceToken (MakeInfo.cxxSources m)
  && forallb isSourceToken (MakeInfo.asmSources m)
  && forallb isToken (MakeInfo.cIncludes m)
  && forallb isToken (MakeInfo.cDefs m)
  && forallb isToken (MakeInfo.cxxDefs m)
  && forallb isToken (MakeInfo.asDefs m)
  && forallb isToken (MakeInfo.libs m)
  && forallb isToken (MakeInfo.libdir m).

(** The lines of a block of [continuedLines], followed by the empty
    line that the closing line break leaves. *)
Fixpoint blockLines (p : string) (entries : list string) : list string :=
  match entries with
  | [] => [""]
  | [x] => [p ++ x; ""]
  | x :: rest => (p ++ x ++ " " ++ BACKSLASH) :: blockLines p rest
  end.

(** [name] cannot start a line that starts with [head]. *)
Fixpoint differsFrom (name head : string) : bool :=
  match name, head with
  | String c name', String d head' =>
      if Ascii.eqb (toLowerChar c) (toLowerChar d)
      then differsFrom name' head'
      else true
  | _, _ => false
  end.

Definition headRejects (name head : string) : bool :=
  match head with
  | String c _ => negb (isWhitespace c) && differsFrom name head
  | EmptyString => false
  end.

(** No line of the text [x] assigns [name]. *)
Definition assignsNowhere (name x : string) : bool :=
  forallb (fun line => negb (isAssignmentOf name line)) (textLines x).

(** Two descriptions that differ in their C sources only. *)
Definition sampleInfo (cSources : list string) : MakeInfo.t :=
  MakeInfo.mk "firmware" "-Os" ["USE_HAL_DRIVER"; "STM32H743xx"] [] []
    cSources ["Src/app.cpp"] ["startup_stm32h743xx.s"] ["Inc"; "Drivers/Inc"]
    "cortex-m7" "fpv5-d16" "hard" ["-Wall"] [] [] "STM32H743ZITx_FLASH.ld"
    ["c"; "m"; "nosys"] ["Lib"] [] "stm32h7x"
    (ToolChain.mk (JsBoolean false)) None.

(** ** The other functions of the project-file scanner *)

Module Lodash.

(** [_.findIndex]: the index of the first element the predicate holds
    for, or -1. *)
Fixpoint findIndex_from (i : Z) (l : list string) (predicate : string -> bool)
  : Z :=
  match l with
  | [] => (-1)%Z
  | x :: rest =>
      if predicate x then i else findIndex_from (i + 1)%Z rest predicate
  end.

Definition findIndex (l : list string) (predicate : string -> bool) : Z :=
  findIndex_from 0 l predicate.

(** [_.intersection] of two arrays: the distinct values of the first
    that the second holds too. *)
Definition intersection (a b : list string) : list string :=
  filter (fun x => existsb (String.eqb x) b) (Js.uniq a).

End Lodash.

Module RequiredResource.
Record t : Type := mk { file : string; warning : string }.
End RequiredResource.

Module RequiredFile.
Record t : Type := mk { file : string; isPresent : bool }.
End RequiredFile.

Section ProjectFiles.

(** [path.posix.basename] and [path.posix.dirname] of Node, [_.toLower]
    of lodash on whole names, and [EXTENSION_CONFIG_NAME] of
    [../Definitions]. *)
Variable basename : string -> string.
Variable dirname : string -> string.
Variable lodashToLower : string -> string.
Variable EXTENSION_CONFIG_NAME : string.

Definition REQUIRED_RESOURCES : list RequiredResource.t :=
  [ RequiredResource.mk "Makefile"
      "No Makefile is present, please initialize your project using CubeMX, with the toolchain set to Makefile under the project manager";
    RequiredResource.mk EXTENSION_CONFIG_NAME "" ].

(** [null] is [None]; [directories[index]] is a list lookup. *)
Definition getDirCaseFree (dirName : string) (directories : list string)
  : option string :=
  let lowerDirName := lodashToLower dirName in
  let index :=
    Lodash.findIndex directories
      (fun o => basename (lodashToLower o) =? lowerDirName) in
  if (index =? -1)%Z then None
  else nth_error directories (Z.to_nat index).

Definition checkForRequiredFiles (directoryFiles : list string)
  : list RequiredFile.t :=
  map (fun entry =>
         let hasFile :=
           match getDirCaseFree (RequiredResource.file entry) directoryFiles
           with
           | None => false
           | Some _ => true
           end in
         RequiredFile.mk (RequiredResource.file entry) hasFile)
      REQUIRED_RESOURCES.

(** The include folders are pushed one by one, deduplicated, copied
    through a template literal, and sorted. *)
Definition getIncludeDirectoriesFromFileList (headerList : list string)
  : list string :=
  let incList :=
    fold_left (fun incList entry => (incList ++ [dirname entry])%list)
      headerList [] in
  let incList := Js.uniq incList in
  let incList := map (fun entry => "" ++ entry) incList in
  Js.sort incList.

(** The callback of the [_.filter] in [getSourceFiles] and
    [getHeaderFiles]: the last dot-separated segment, as written, is one
    of the extensions. *)
Definition hasExtensionOf (extensions : list string) (file : string) : bool :=
  let extension := List.last (split "."%char file) EmptyString in
  (0 <? List.length (Lodash.intersection [extension] extensions))%nat.

Definition sourceFileExtensions : list string :=
  ["cpp"; "c"; "a"; "s"; "cxx"; "cc"].

Definition headerFileExtensions : list string := ["h"; "hpp"; "hxx"].

(** [scanForFiles] reads the file system; [scanResult] is what its
    promise settles to for the given globs: a rejection or the files. *)
Variable ScanError : Type.
Variable scanResult : list string -> ScanError + list string.

Definition getSourceFiles (sourceFileGlobs : list string)
  : ScanError + list string :=
  match scanResult sourceFileGlobs with
  | inl error => inl error
  | inr files => inr (filter (hasExtensionOf sourceFileExtensions) files)
  end.

Definition getHeaderFiles (headerFilesGlobs : list string)
  : ScanError + list string :=
  match scanResult headerFilesGlobs with
  | inl error => inl error
  | inr files => inr (filter (hasExtensionOf headerFileExtensions) files)
  end.

End ProjectFiles.

(** ** The OpenOCD configuration file *)

Module OpenOCDConfig.

(** The fields of the configuration that [create] reads. *)
Record t : Type := mk { interface : string; openocdTarget : string }.

Definition create (config : t) : string :=
  String.concat LF [
    "#OpenOCD configuration file, generated by STM32 for VSCode";
    "";
    "# Programmer, can be changed to several interfaces";
    "# Standard will be the stlink interface as this is the standard for STM32 dev boards";
    "source [find interface/" ++ interface config ++ ".cfg]";
    "";
    "# The target MCU. This should match your board";
    "source [find target/" ++ openocdTarget config ++ ".cfg]";
    ""
  ].

End OpenOCDConfig.

(** ** Notions used to state further properties *)

(** The text of the single-line formatter: every entry with its prefix
    and a space after it. *)
Fixpoint spacedEntries (p : string) (entries : list string) : string :=
  match entries with
  | [] => ""
  | x :: rest => p ++ x ++ " " ++ spacedEntries p rest
  end.

(** One block of [customMakefileRules]. *)
Definition ruleBlock (r : CustomRule.t) : string := customRuleStep "" r.

(** Two descriptions with the same text fields and custom rules whose
    lists hold the same members; the tool locations are free. *)
Definition sameDescription (m1 m2 : MakeInfo.t) : Prop :=
  MakeInfo.target m1 = MakeInfo.target m2
  /\ MakeInfo.optimization m1 = MakeInfo.optimization m2
  /\ MakeInfo.cpu m1 = MakeInfo.cpu m2
  /\ MakeInfo.fpu m1 = MakeInfo.fpu m2
  /\ MakeInfo.floatAbi m1 = MakeInfo.floatAbi m2
  /\ MakeInfo.ldscript m1 = MakeInfo.ldscript m2
  /\ MakeInfo.targetMCU m1 = MakeInfo.targetMCU m2
  /\ MakeInfo.customMakefileRules m1 = MakeInfo.customMakefileRules m2
  /\ sameMembers (MakeInfo.cDefs m1) (MakeInfo.cDefs m2)
  /\ sameMembers (MakeInfo.cxxDefs m1) (MakeInfo.cxxDefs m2)
  /\ sameMembers (MakeInfo.asDefs m1) (MakeInfo.asDefs m2)
  /\ sameMembers (MakeInfo.cSources m1) (MakeInfo.cSources m2)
  /\ sameMembers (MakeInfo.cxxSources m1) (MakeInfo.cxxSources m2)
  /\ sameMembers (MakeInfo.asmSources m1) (MakeInfo.asmSources m2)
  /\ sameMembers (MakeInfo.cIncludes m1) (MakeInfo.cIncludes m2)
  /\ sameMembers (MakeInfo.cFlags m1) (MakeInfo.cFlags m2)
  /\ sameMembers (MakeInfo.cxxFlags m1) (MakeInfo.cxxFlags m2)
  /\ sameMembers (MakeInfo.assemblyFlags m1) (MakeInfo.assemblyFlags m2)
  /\ sameMembers (MakeInfo.libs m1) (MakeInfo.libs m2)
  /\ sameMembers (MakeInfo.libdir m1) (MakeInfo.libdir m2)
  /\ sameMembers (MakeInfo.ldFlags m1) (MakeInfo.ldFlags m2).

(** Every member of [arr] occurs in [text] behind the prefix [p]. *)
Definition listedIn (text p : string) (arr : list string) : Prop :=
  forall e, In e arr -> occursIn (p ++ e) text.

(** A description with the given extra C flags, tool locations and
    custom rules. *)
Definition sampleWith (cFlags : list string) (tools : ToolChain.t)
    (rules : option (list CustomRule.t)) : MakeInfo.t :=
  MakeInfo.mk "firmware" "-Os" ["USE_HAL_DRIVER"] [] [] ["Src/main.c"] [] []
    ["Inc"] "cortex-m7" "" "" cFlags [] [] "flash.ld" ["c"; "m"] [] []
    "stm32h7x" tools rules.

(** The section header in front of the custom rules, and the part of
    the template behind them. *)
Definition customRulesHeader : string :=
  String.concat LF [
    "#######################################";
    "# custom makefile rules";
    "#######################################";
    ""
  ].

Definition dependenciesSection : string :=
  String.concat LF [
    TAB;
    "#######################################";
    "# dependencies";
    "#######################################";
    "-include $(wildcard $(RELEASE_DIRECTORY)/*.d)";
    "";
    "# *** EOF ***"
  ].

(** * Properties *)

(** ** Strings *)

Lemma append_assoc (a b c : string) : (a ++ b) ++ c = a ++ (b ++ c).
Proof. induction a as [|ch a IH]; simpl; [reflexivity | now rewrite IH]. Qed.

Lemma append_empty_r (a : string) : a ++ "" = a.
Proof. induction a as [|ch a IH]; simpl; [reflexivity | now rewrite IH]. Qed.

Lemma length_append (a b : string) :
  String.length (a ++ b) = String.length a + String.length b.
Proof. induction a as [|ch a IH]; simpl; [reflexivity | now rewrite IH]. Qed.

Lemma length_zero_empty (s : string) : String.length s = 0 -> s = "".
Proof. destruct s; simpl; [reflexivity | discriminate]. Qed.

Lemma prefix_append (p s : string) : prefix p (p ++ s) = true.
Proof.
  induction p as [|c p IH]; simpl.
  - now destruct s.
  - destruct (ascii_dec c c) as [_|ne]; [exact IH | now elim ne].
Qed.

Lemma prefix_split (p s : string) :
  prefix p s = true -> exists rest, s = p ++ rest.
Proof.
  revert s; induction p as [|c p IH]; intros s H.
  - now exists s.
  - destruct s as [|d s]; simpl in H; [discriminate|].
    destruct (ascii_dec c d) as [->|]; [|discriminate].
    destruct (IH s H) as [rest ->]. now exists rest.
Qed.

(** ** The order of strings *)

Lemma ascii_compare_refl (c : ascii) : Ascii.compare c c = Eq.
Proof. unfold Ascii.compare. apply N.compare_refl. Qed.

Lemma ascii_compare_lt_trans (a b c : ascii) :
  Ascii.compare a b = Lt -> Ascii.compare b c = Lt -> Ascii.compare a c = Lt.
Proof.
  unfold Ascii.compare. rewrite !N.compare_lt_iff. apply N.lt_trans.
Qed.

Lemma compare_refl (s : string) : String.compare s s = Eq.
Proof.
  induction s as [|c s IH]; simpl; [reflexivity|].
  now rewrite ascii_compare_refl.
Qed.

Lemma compare_lt_trans (a b c : string) :
  String.compare a b = Lt -> String.compare b c = Lt ->
  String.compare a c = Lt.
Proof.
  revert b c; induction a as [|x a IH]; intros [|y b] [|z c]; simpl;
    try congruence.
  destruct (Ascii.compare x y) eqn:Exy; try discriminate;
    destruct (Ascii.compare y z) eqn:Eyz; try discriminate; intros H1 H2.
  - apply Ascii.compare_eq_iff in Exy, Eyz; subst.
    rewrite ascii_compare_refl. eauto.
  - apply Ascii.compare_eq_iff in Exy; subst. now rewrite Eyz.
  - apply Ascii.compare_eq_iff in Eyz; subst. now rewrite Exy.
  - now rewrite (ascii_compare_lt_trans _ _ _ Exy Eyz).
Qed.

(** ** The order of [sort()] *)

Lemma compareUnits_refl (a : list N) : Js.compareUnits a a = Eq.
Proof.
  induction a as [|x a IH]; [reflexivity|].
  cbn [Js.compareUnits]. now rewrite N.compare_refl.
Qed.

Lemma compareUnits_eq (a b : list N) : Js.compareUnits a b = Eq -> a = b.
Proof.
  revert b; induction a as [|x a IH]; intros [|y b]; cbn [Js.compareUnits];
    try discriminate; [reflexivity|].
  destruct (x ?= y)%N eqn:E; try discriminate.
  apply N.compare_eq in E. intros H. f_equal; auto.
Qed.

Lemma compareUnits_antisym (a b : list N) :
  Js.compareUnits a b = CompOpp (Js.compareUnits b a).
Proof.
  revert b; induction a as [|x a IH]; intros [|y b]; cbn [Js.compareUnits];
    try reflexivity.
  rewrite (N.compare_antisym y x).
  destruct (y ?= x)%N; cbn [CompOpp]; [apply IH | reflexivity..].
Qed.

Lemma compareUnits_lt_trans (a b c : list N) :
  Js.compareUnits a b = Lt -> Js.compareUnits b c = Lt ->
  Js.compareUnits a c = Lt.
Proof.
  revert b c; induction a as [|x a IH]; intros [|y b] [|z c];
    cbn [Js.compareUnits]; try congruence.
  destruct (x ?= y)%N eqn:Exy; try discriminate;
    destruct (y ?= z)%N eqn:Eyz; try discriminate; intros H1 H2.
  - apply N.compare_eq in Exy, Eyz; subst.
    rewrite N.compare_refl. eauto.
  - apply N.compare_eq in Exy; subst. now rewrite Eyz.
  - apply N.compare_eq in Eyz; subst. now rewrite Exy.
  - rewrite N.compare_lt_iff in Exy, Eyz.
    now rewrite (proj2 (N.compare_lt_iff x z) (N.lt_trans _ _ _ Exy Eyz)).
Qed.

Lemma compareStrings_refl (s : string) : Js.compareStrings s s = Eq.
Proof.
  unfold Js.compareStrings. now rewrite compareUnits_refl, compare_refl.
Qed.

Lemma compareStrings_eq (a b : string) : Js.compareStrings a b = Eq -> a = b.
Proof.
  unfold Js.compareStrings.
  destruct (Js.compareUnits (Js.codeUnits a) (Js.codeUnits b));
    try discriminate.
  apply String.compare_eq_iff.
Qed.

Lemma compareStrings_antisym (a b : string) :
  Js.compareStrings a b = CompOpp (Js.compareStrings b a).
Proof.
  unfold Js.compareStrings.
  rewrite (compareUnits_antisym (Js.codeUnits a) (Js.codeUnits b)).
  destruct (Js.compareUnits (Js.codeUnits b) (Js.codeUnits a));
    cbn [CompOpp]; [apply String.compare_antisym | reflexivity..].
Qed.

Lemma compareStrings_lt_trans (a b c : string) :
  Js.compareStrings a b = Lt -> Js.compareStrings b c = Lt ->
  Js.compareStrings a c = Lt.
Proof.
  unfold Js.compareStrings.
  destruct (Js.compareUnits (Js.codeUnits a) (Js.codeUnits b)) eqn:Eab;
    try discriminate;
    destruct (Js.compareUnits (Js.codeUnits b) (Js.codeUnits c)) eqn:Ebc;
    try discriminate; intros H1 H2.
  - apply compareUnits_eq in Eab, Ebc. rewrite Eab, Ebc, compareUnits_refl.
    eapply compare_lt_trans; eauto.
  - apply compareUnits_eq in Eab. now rewrite Eab, Ebc.
  - apply compareUnits_eq in Ebc. now rewrite <- Ebc, Eab.
  - now rewrite (compareUnits_lt_trans _ _ _ Eab Ebc).
Qed.

Lemma leb_refl (s : string) : Js.leb s s = true.
Proof. unfold Js.leb. now rewrite compareStrings_refl. Qed.

Lemma leb_ltb_or_eq (a b : string) :
  Js.leb a b = true <-> Js.ltb a b = true \/ a = b.
Proof.
  unfold Js.leb, Js.ltb.
  destruct (Js.compareStrings a b) eqn:E; split; intros H; auto.
  - right. now apply compareStrings_eq.
  - destruct H as [H | ->]; [discriminate|].
    now rewrite compareStrings_refl in E.
Qed.

Lemma ltb_irrefl (s : string) : Js.ltb s s = false.
Proof. unfold Js.ltb. now rewrite compareStrings_refl. Qed.

Lemma ltb_trans (a b c : string) :
  Js.ltb a b = true -> Js.ltb b c = true -> Js.ltb a c = true.
Proof.
  unfold Js.ltb.
  destruct (Js.compareStrings a b) eqn:E1; try discriminate.
  destruct (Js.compareStrings b c) eqn:E2; try discriminate.
  now rewrite (compareStrings_lt_trans _ _ _ E1 E2).
Qed.

Lemma leb_trans (a b c : string) :
  Js.leb a b = true -> Js.leb b c = true -> Js.leb a c = true.
Proof.
  rewrite !leb_ltb_or_eq. intros [H1 | ->] [H2 | ->]; auto.
  left. eapply ltb_trans; eauto.
Qed.

Lemma leb_antisym (a b : string) :
  Js.leb a b = true -> Js.leb b a = true -> a = b.
Proof.
  unfold Js.leb. rewrite (compareStrings_antisym b a).
  destruct (Js.compareStrings a b) eqn:E; cbn [CompOpp]; try discriminate.
  intros _ _. now apply compareStrings_eq.
Qed.

Lemma leb_false_leb (a b : string) :
  Js.leb a b = false -> Js.leb b a = true.
Proof.
  unfold Js.leb. rewrite (compareStrings_antisym b a).
  now destruct (Js.compareStrings a b).
Qed.

(** ** [_.uniq] *)

Lemma existsb_eqb_In (x : string) (seen : list string) :
  existsb (String.eqb x) seen = true <-> In x seen.
Proof.
  rewrite existsb_exists. split.
  - intros (y & Hy & E). apply String.eqb_eq in E. now subst.
  - intros H. exists x. split; [assumption | apply String.eqb_refl].
Qed.

Lemma uniq_from_In (arr seen : list string) (x : string) :
  In x (Js.uniq_from seen arr) <-> In x arr /\ ~ In x seen.
Proof.
  revert seen; induction arr as [|a arr IH]; intros seen; simpl.
  - tauto.
  - destruct (existsb (String.eqb a) seen) eqn:E.
    + apply existsb_eqb_In in E. rewrite IH. split.
      * tauto.
      * intros [[-> | H] Hn]; tauto.
    + assert (Ha : ~ In a seen).
      { intros H. apply existsb_eqb_In in H. congruence. }
      simpl. rewrite IH. simpl. split.
      * intros [-> | [H Hn]]; [tauto|]. split; [tauto|]. intros Hs. tauto.
      * intros [[-> | H] Hn]; [tauto|].
        destruct (string_dec a x) as [->|ne]; [tauto|]. right. tauto.
Qed.

Lemma uniq_from_NoDup (arr seen : list string) :
  NoDup (Js.uniq_from seen arr).
Proof.
  revert seen; induction arr as [|a arr IH]; intros seen; simpl.
  - constructor.
  - destruct (existsb (String.eqb a) seen); [apply IH|].
    constructor; [|apply IH].
    rewrite uniq_from_In. simpl. tauto.
Qed.

Lemma uniq_In (arr : list string) (x : string) :
  In x (Js.uniq arr) <-> In x arr.
Proof. unfold Js.uniq. rewrite uniq_from_In. simpl. tauto. Qed.

Lemma uniq_NoDup (arr : list string) : NoDup (Js.uniq arr).
Proof. apply uniq_from_NoDup. Qed.

(** Lists with the same members have the same deduplicated members, up
    to order. *)
Lemma uniq_Permutation (l1 l2 : list string) :
  (forall x, In x l1 <-> In x l2) ->
  Permutation (Js.uniq l1) (Js.uniq l2).
Proof.
  intros H. apply NoDup_Permutation; try apply uniq_NoDup.
  intros x. now rewrite !uniq_In.
Qed.

(** ** [Array.prototype.sort] *)

Lemma insert_Permutation (x : string) (l : list string) :
  Permutation (x :: l) (Js.insert x l).
Proof.
  induction l as [|y l IH]; simpl; [reflexivity|].
  destruct (Js.leb x y); [reflexivity|].
  rewrite perm_swap. now constructor.
Qed.

Lemma sort_Permutation (l : list string) : Permutation l (Js.sort l).
Proof.
  induction l as [|x l IH]; simpl; [constructor|].
  rewrite <- insert_Permutation. now constructor.
Qed.

Lemma sort_In (l : list string) (x : string) : In x (Js.sort l) <-> In x l.
Proof.
  split; apply Permutation_in;
    [symmetry|]; apply sort_Permutation.
Qed.

Lemma sort_length (l : list string) : List.length (Js.sort l) = List.length l.
Proof. symmetry. apply Permutation_length, sort_Permutation. Qed.

Lemma insert_nonDescending (x : string) (l : list string) :
  nonDescending l -> nonDescending (Js.insert x l).
Proof.
  unfold nonDescending.
  induction l as [|y l IH]; intros Hs; simpl.
  - repeat constructor.
  - inversion Hs as [|? ? Hl Hy]; subst.
    destruct (Js.leb x y) eqn:E.
    + constructor; [assumption|]. constructor; [assumption|].
      eapply Forall_impl; [|exact Hy]. intros z Hz. eapply leb_trans; eauto.
    + constructor; [now apply IH|].
      apply leb_false_leb in E.
      rewrite Forall_forall. intros z Hz.
      apply (Permutation_in _ (Permutation_sym (insert_Permutation x l))) in Hz.
      destruct Hz as [<- | Hz]; [assumption|].
      rewrite Forall_forall in Hy. now apply Hy.
Qed.

Lemma sort_nonDescending (l : list string) : nonDescending (Js.sort l).
Proof.
  induction l as [|x l IH]; simpl.
  - constructor.
  - now apply insert_nonDescending.
Qed.

(** A list has one non-descending arrangement only. *)
Lemma nonDescending_unique (l1 l2 : list string) :
  nonDescending l1 -> nonDescending l2 -> Permutation l1 l2 -> l1 = l2.
Proof.
  unfold nonDescending.
  revert l2; induction l1 as [|x l1 IH]; intros l2 H1 H2 P.
  - apply Permutation_nil in P. now subst.
  - destruct l2 as [|y l2].
    { symmetry in P. now apply Permutation_nil in P. }
    inversion H1 as [|? ? S1 F1]; inversion H2 as [|? ? S2 F2]; subst.
    rewrite Forall_forall in F1, F2.
    assert (x = y) as ->.
    { assert (In x (y :: l2)) as Hx
        by (eapply Permutation_in; [exact P | now left]).
      assert (In y (x :: l1)) as Hy
        by (eapply Permutation_in; [symmetry; exact P | now left]).
      destruct Hx as [->|Hx]; [reflexivity|].
      destruct Hy as [->|Hy]; [reflexivity|].
      apply leb_antisym; auto. }
    f_equal. apply IH; auto. eapply Permutation_cons_inv; eauto.
Qed.

Lemma sort_Permutation_eq (l1 l2 : list string) :
  Permutation l1 l2 -> Js.sort l1 = Js.sort l2.
Proof.
  intros P. apply nonDescending_unique; try apply sort_nonDescending.
  rewrite <- (sort_Permutation l1), <- (sort_Permutation l2). exact P.
Qed.

(** Without repetitions, non-descending is ascending. *)
Lemma nonDescending_NoDup_ascending (l : list string) :
  nonDescending l -> NoDup l -> ascending l.
Proof.
  unfold nonDescending, ascending.
  induction l as [|x l IH]; intros Hs Hn; [constructor|].
  inversion Hs as [|? ? Sl Fl]; inversion Hn as [|? ? Nx Nl]; subst.
  constructor; [now apply IH|].
  rewrite Forall_forall in *. intros y Hy.
  destruct (proj1 (leb_ltb_or_eq x y) (Fl y Hy)) as [H | ->];
    [assumption | contradiction].
Qed.

Lemma sort_uniq_ascending (arr : list string) :
  ascending (Js.sort (Js.uniq arr)).
Proof.
  apply nonDescending_NoDup_ascending; [apply sort_nonDescending|].
  eapply Permutation_NoDup; [apply sort_Permutation | apply uniq_NoDup].
Qed.

Lemma sort_uniq_NoDup (arr : list string) : NoDup (Js.sort (Js.uniq arr)).
Proof.
  eapply Permutation_NoDup; [apply sort_Permutation | apply uniq_NoDup].
Qed.

Lemma sort_uniq_In (arr : list string) (x : string) :
  In x (Js.sort (Js.uniq arr)) <-> In x arr.
Proof. now rewrite sort_In, uniq_In. Qed.

(** The sorted, deduplicated array depends on the members only. *)
Lemma sort_uniq_members (l1 l2 : list string) :
  (forall x, In x l1 <-> In x l2) ->
  Js.sort (Js.uniq l1) = Js.sort (Js.uniq l2).
Proof. intros H. now apply sort_Permutation_eq, uniq_Permutation. Qed.

(** ** [String.prototype.indexOf] *)

Lemma indexOf_from_unfold (s pat : string) (i : Z) :
  Js.indexOf_from i s pat
  = if prefix pat s then i
    else match s with
         | EmptyString => (-1)%Z
         | String _ rest => Js.indexOf_from (i + 1)%Z rest pat
         end.
Proof. now destruct s. Qed.

Lemma indexOf_from_found (s pat : string) (i : Z) :
  occursIn pat s -> (i <= Js.indexOf_from i s pat)%Z.
Proof.
  intros (a & b & ->). revert i; induction a as [|c a IH]; intros i.
  - rewrite indexOf_from_unfold. change ("" ++ pat ++ b) with (pat ++ b).
    rewrite prefix_append. lia.
  - rewrite indexOf_from_unfold.
    change ((String c a) ++ pat ++ b) with (String c (a ++ pat ++ b)).
    destruct (prefix pat (String c (a ++ pat ++ b))); [lia|].
    specialize (IH (i + 1)%Z). lia.
Qed.

Lemma indexOf_from_occurs (s pat : string) (i : Z) :
  (0 <= i)%Z -> (0 <= Js.indexOf_from i s pat)%Z -> occursIn pat s.
Proof.
  revert i; induction s as [|c s IH]; intros i Hi H; cbn [Js.indexOf_from] in H.
  - destruct (prefix pat "") eqn:E; [|lia].
    destruct (prefix_split _ _ E) as [rest ->]. now exists "", rest.
  - destruct (prefix pat (String c s)) eqn:E.
    + destruct (prefix_split _ _ E) as [rest ->]. now exists "", rest.
    + destruct (IH (i + 1)%Z ltac:(lia) H) as (a & b & ->).
      now exists (String c a), b.
Qed.

Lemma indexOf_occurs (s pat : string) :
  (0 <=? Js.indexOf s pat)%Z = true <-> occursIn pat s.
Proof.
  rewrite Z.leb_le. unfold Js.indexOf. split.
  - now apply indexOf_from_occurs.
  - apply indexOf_from_found.
Qed.

(** ** The formatters *)

Lemma appendPrefix_text (prefix : option string) (output : string) :
  appendPrefix prefix output = output ++ prefixText prefix.
Proof.
  destruct prefix as [p|]; simpl; [|now rewrite append_empty_r].
  destruct (String.eqb_spec p "") as [->|]; [now rewrite append_empty_r|].
  reflexivity.
Qed.

Lemma stringListLoop_continuedLines (prefix : option string)
    (entries : list string) :
  forall (ind len : nat) (output : string),
    len = ind + List.length entries ->
    stringListLoop prefix len entries ind output
    = output ++ continuedLines (prefixText prefix) entries.
Proof.
  induction entries as [|e rest IH]; intros ind len output Hlen.
  - simpl. now rewrite append_empty_r.
  - cbn [stringListLoop]. rewrite (IH (S ind) len) by (simpl in Hlen; lia).
    unfold stringListStep. rewrite appendPrefix_text.
    destruct rest as [|r rest].
    + simpl in Hlen.
      replace (Z.of_nat ind <? Z.of_nat len - 1)%Z with false
        by (symmetry; apply Z.ltb_ge; lia).
      cbn [continuedLines]. now rewrite append_empty_r, !append_assoc.
    + replace (Z.of_nat ind <? Z.of_nat len - 1)%Z with true
        by (symmetry; apply Z.ltb_lt; simpl in Hlen; lia).
      remember (r :: rest) as tail. cbn [continuedLines].
      subst tail. now rewrite !append_assoc.
Qed.

Lemma createStringList_continuedLines (arr : list string)
    (prefix : option string) :
  createStringList arr prefix
  = continuedLines (prefixText prefix) (Js.sort (Js.uniq arr)).
Proof.
  unfold createStringList.
  now rewrite stringListLoop_continuedLines by reflexivity.
Qed.

(** C4: [createStringList] renders the deduplicated entries in ascending
    order, one line per entry made of the prefix and the entry, each line
    but the last carrying the continuation marker, every line closed by a
    line break; without entries the text is empty. *)
Theorem createStringList_spec (arr : list string) (prefix : option string) :
  (exists entries,
      NoDup entries
      /\ (forall x, In x entries <-> In x arr)
      /\ ascending entries
      /\ createStringList arr prefix
         = continuedLines (prefixText prefix) entries)
  /\ createStringList [] prefix = "".
Proof.
  split; [|reflexivity].
  exists (Js.sort (Js.uniq arr)).
  repeat split; try apply sort_uniq_In.
  - apply sort_uniq_NoDup.
  - apply sort_uniq_ascending.
  - apply createStringList_continuedLines.
Qed.

(** C5: both formatters give the same text on lists that are
    permutations of each other, duplicates included; in particular the
    text is a function of the input, and formatting the normalised list
    again changes nothing. *)
Theorem formatters_permutation_invariant (l1 l2 : list string)
    (prefix : option string) :
  Permutation l1 l2 ->
  createStringList l1 prefix = createStringList l2 prefix
  /\ createSingleLineStringList l1 prefix
     = createSingleLineStringList l2 prefix
  /\ createStringList (Js.sort (Js.uniq l1)) prefix
     = createStringList l1 prefix
  /\ createSingleLineStringList (Js.sort (Js.uniq l1)) prefix
     = createSingleLineStringList l1 prefix.
Proof.
  intros P.
  assert (E : Js.sort (Js.uniq l1) = Js.sort (Js.uniq l2)).
  { apply sort_uniq_members. intros x.
    split; apply Permutation_in; [|symmetry]; exact P. }
  assert (E' : Js.sort (Js.uniq (Js.sort (Js.uniq l1)))
               = Js.sort (Js.uniq l1)).
  { apply sort_uniq_members. intros x. apply sort_uniq_In. }
  unfold createStringList, createSingleLineStringList.
  now rewrite E', E.
Qed.

Lemma formatters_permutation_invariant_witness :
  Permutation ["b.c"; "a.c"; "b.c"] ["a.c"; "b.c"; "b.c"]
  /\ createStringList ["b.c"; "a.c"; "b.c"] (Some "-I")
     = createStringList ["a.c"; "b.c"; "b.c"] (Some "-I").
Proof.
  assert (P : Permutation ["b.c"; "a.c"; "b.c"] ["a.c"; "b.c"; "b.c"])
    by apply perm_swap.
  split; [exact P|].
  exact (proj1 (formatters_permutation_invariant _ _ (Some "-I") P)).
Defined.

(** ** [createPrefixWhenNoneExists] *)

Lemma createPrefixWhenNoneExists_cases (x prefix : string) :
  createPrefixWhenNoneExists (Some x) prefix
  = if (x =? "") then ""
    else if (0 <=? Js.indexOf x prefix)%Z then x else prefix ++ x.
Proof.
  unfold createPrefixWhenNoneExists. now destruct x.
Qed.

(** C6: conditional prefixing gives the empty string for an absent or
    empty token, the token itself when the prefix occurs anywhere in it,
    and the prefix followed by the token otherwise; applying it to its
    own result changes nothing. *)
Theorem createPrefixWhenNoneExists_spec (prefix : string) :
  createPrefixWhenNoneExists None prefix = ""
  /\ createPrefixWhenNoneExists (Some "") prefix = ""
  /\ (forall x, x <> "" -> occursIn prefix x ->
        createPrefixWhenNoneExists (Some x) prefix = x)
  /\ (forall x, x <> "" -> ~ occursIn prefix x ->
        createPrefixWhenNoneExists (Some x) prefix = prefix ++ x)
  /\ (forall input,
        createPrefixWhenNoneExists
          (Some (createPrefixWhenNoneExists input prefix)) prefix
        = createPrefixWhenNoneExists input prefix).
Proof.
  assert (Hin : forall x, x <> "" -> occursIn prefix x ->
            createPrefixWhenNoneExists (Some x) prefix = x).
  { intros x Hx Ho. rewrite createPrefixWhenNoneExists_cases.
    destruct (String.eqb_spec x ""); [contradiction|].
    now rewrite (proj2 (indexOf_occurs x prefix) Ho). }
  assert (Hout : forall x, x <> "" -> ~ occursIn prefix x ->
            createPrefixWhenNoneExists (Some x) prefix = prefix ++ x).
  { intros x Hx Ho. rewrite createPrefixWhenNoneExists_cases.
    destruct (String.eqb_spec x ""); [contradiction|].
    destruct (0 <=? Js.indexOf x prefix)%Z eqn:E; [|reflexivity].
    apply indexOf_occurs in E. contradiction. }
  repeat split; auto.
  intros [x|]; [|reflexivity].
  rewrite (createPrefixWhenNoneExists_cases x).
  destruct (String.eqb_spec x "") as [->|Hx]; [reflexivity|].
  destruct (0 <=? Js.indexOf x prefix)%Z eqn:E.
  - apply Hin; [assumption | now apply indexOf_occurs].
  - apply Hin.
    + destruct prefix; [assumption | discriminate].
    + exists "", x. reflexivity.
Qed.

Lemma createPrefixWhenNoneExists_spec_witness :
  "cortex-m7" <> ""
  /\ ~ occursIn "-mcpu=" "cortex-m7"
  /\ createPrefixWhenNoneExists (Some "cortex-m7") "-mcpu="
     = "-mcpu=cortex-m7".
Proof.
  assert (Hn : ~ occursIn "-mcpu=" "cortex-m7").
  { intros H. apply indexOf_occurs in H. vm_compute in H. discriminate. }
  split; [discriminate|]. split; [exact Hn|].
  destruct (createPrefixWhenNoneExists_spec "-mcpu=") as (_ & _ & _ & H & _).
  apply H; [discriminate | exact Hn].
Defined.

(** ** [createGCCPathOutput] *)

(** C10: the fragment is empty unless the toolchain path is a string
    other than the empty one and ["."]; then it is [GCC_PATH=], one
    double quote, and the converted path, with no closing quote added. *)
Theorem createGCCPathOutput_spec (fsPathToPosix : string -> string)
    (makeInfo : MakeInfo.t) :
  createGCCPathOutput fsPathToPosix makeInfo
  = match ToolChain.armToolchainPath (MakeInfo.tools makeInfo) with
    | JsString s =>
        if (s =? "") || (s =? ".") then ""
        else "GCC_PATH=" ++ DQUOTE ++ fsPathToPosix s
    | _ => ""
    end.
Proof.
  unfold createGCCPathOutput.
  destruct (ToolChain.armToolchainPath (MakeInfo.tools makeInfo))
    as [| |b|n|s]; cbn [truthy isString isEmpty notStrictEqualDot];
    rewrite ?andb_false_r; try reflexivity.
  destruct s as [|c s]; [reflexivity|].
  change (String c s =? "") with false.
  cbn [String.length Nat.eqb negb andb orb].
  now destruct (String c s =? ".").
Qed.

(** ** [customMakefileRules] and the end of the template *)

Lemma concat_app (sep : string) (l1 l2 : list string) :
  l1 <> [] -> l2 <> [] ->
  String.concat sep (l1 ++ l2)%list
  = String.concat sep l1 ++ sep ++ String.concat sep l2.
Proof.
  intros H1 H2. induction l1 as [|x l1 IH]; [contradiction|].
  destruct l1 as [|y l1].
  - destruct l2; [contradiction | reflexivity].
  - change (String.concat sep ((x :: y :: l1) ++ l2)%list)
      with (x ++ sep ++ String.concat sep ((y :: l1) ++ l2)%list).
    rewrite IH by discriminate.
    change (String.concat sep (x :: y :: l1))
      with (x ++ sep ++ String.concat sep (y :: l1)).
    now rewrite !append_assoc.
Qed.

(** C3: without custom rules (list absent or empty) the renderer gives
    the empty string, and the Makefile ends with the template's own
    closing part: the section header is followed by the template's blank
    lines and the dependencies section, with no rule banner in between. *)
Theorem customMakefileRules_empty (envFile makefileName : string)
    (makeInfo : MakeInfo.t) :
  MakeInfo.customMakefileRules makeInfo = None
  \/ MakeInfo.customMakefileRules makeInfo = Some [] ->
  customMakefileRules makeInfo = ""
  /\ exists before,
       createMakefile envFile makefileName makeInfo
       = before ++ LF ++ templateClosing.
Proof.
  intros H.
  assert (E : customMakefileRules makeInfo = "").
  { unfold customMakefileRules. now destruct H as [-> | ->]. }
  split; [exact E|].
  exists (String.concat LF
            (firstn 385 (createMakefileLines envFile makefileName makeInfo))).
  unfold createMakefile.
  rewrite <- (firstn_skipn 385
                (createMakefileLines envFile makefileName makeInfo)) at 1.
  rewrite concat_app.
  - f_equal. f_equal. unfold createMakefileLines. rewrite E.
    cbn [skipn]. reflexivity.
  - unfold createMakefileLines. cbn [firstn]. discriminate.
  - unfold createMakefileLines. cbn [skipn]. discriminate.
Qed.

Lemma customMakefileRules_empty_witness :
  let makeInfo :=
    MakeInfo.mk "firmware" "-Os" [] [] [] ["main.c"] [] [] [] "cortex-m7"
      "" "" [] [] [] "flash.ld" [] [] [] "stm32h7x"
      (ToolChain.mk (JsBoolean false)) (Some []) in
  (MakeInfo.customMakefileRules makeInfo = None
   \/ MakeInfo.customMakefileRules makeInfo = Some [])
  /\ customMakefileRules makeInfo = ""
  /\ exists before,
       createMakefile ".stm32env" "STM32Make.make" makeInfo
       = before ++ LF ++ templateClosing.
Proof.
  intros makeInfo.
  assert (H : MakeInfo.customMakefileRules makeInfo = None
              \/ MakeInfo.customMakefileRules makeInfo = Some [])
    by (right; reflexivity).
  split; [exact H|].
  exact (customMakefileRules_empty ".stm32env" "STM32Make.make" makeInfo H).
Defined.

(** ** [sortFiles] *)

Section SortFilesFacts.

Variable dirname : string -> string.

(** What one classification step adds to each bucket. *)
Lemma classify_elements (output : BuildFiles.t) (entry : string) :
  let output' := classify dirname output entry in
  JsArray.elements (BuildFiles.cSources output')
  = (JsArray.elements (BuildFiles.cSources output)
     ++ filter (fun e => extension e =? "c") [entry])%list
  /\ JsArray.elements (BuildFiles.cxxSources output')
     = (JsArray.elements (BuildFiles.cxxSources output)
        ++ filter (fun e => (extension e =? "cpp") || (extension e =? "cxx")
                            || (extension e =? "cc")) [entry])%list
  /\ JsArray.elements (BuildFiles.assemblySources output')
     = (JsArray.elements (BuildFiles.assemblySources output)
        ++ filter (fun e => extension e =? "s") [entry])%list
  /\ JsArray.elements (BuildFiles.libraryDirectories output')
     = (JsArray.elements (BuildFiles.libraryDirectories output)
        ++ map dirname (filter (fun e => extension e =? "a") [entry]))%list.
Proof.
  destruct output as [c cxx asm lib]. unfold classify. cbn [filter].
  remember (extension entry) as x eqn:Ex. clear Ex.
  destruct (String.eqb_spec x "cpp") as [->|_];
    [cbn; now rewrite !app_nil_r|].
  destruct (String.eqb_spec x "cxx") as [->|_];
    [cbn; now rewrite !app_nil_r|].
  destruct (String.eqb_spec x "cc") as [->|_];
    [cbn; now rewrite !app_nil_r|].
  destruct (String.eqb_spec x "c") as [->|_];
    [cbn; now rewrite !app_nil_r|].
  destruct (String.eqb_spec x "h") as [->|_];
    [cbn; now rewrite !app_nil_r|].
  destruct (String.eqb_spec x "hpp") as [->|_];
    [cbn; now rewrite !app_nil_r|].
  destruct (String.eqb_spec x "s") as [->|_];
    [cbn; now rewrite !app_nil_r|].
  destruct (String.eqb_spec x "a") as [->|_];
    cbn; now rewrite !app_nil_r.
Qed.

Lemma fold_classify_elements (list : list string) :
  forall output : BuildFiles.t,
    let output' := fold_left (classify dirname) list output in
    JsArray.elements (BuildFiles.cSources output')
    = (JsArray.elements (BuildFiles.cSources output)
       ++ filter (fun e => extension e =? "c") list)%list
    /\ JsArray.elements (BuildFiles.cxxSources output')
       = (JsArray.elements (BuildFiles.cxxSources output)
          ++ filter (fun e => (extension e =? "cpp") || (extension e =? "cxx")
                              || (extension e =? "cc")) list)%list
    /\ JsArray.elements (BuildFiles.assemblySources output')
       = (JsArray.elements (BuildFiles.assemblySources output)
          ++ filter (fun e => extension e =? "s") list)%list
    /\ JsArray.elements (BuildFiles.libraryDirectories output')
       = (JsArray.elements (BuildFiles.libraryDirectories output)
          ++ map dirname (filter (fun e => extension e =? "a") list))%list.
Proof.
  induction list as [|entry list IH]; intros output.
  - cbn. now rewrite !app_nil_r.
  - cbn [fold_left]. cbv zeta in IH |- *.
    destruct (IH (classify dirname output entry)) as (H1 & H2 & H3 & H4).
    destruct (classify_elements output entry) as (K1 & K2 & K3 & K4).
    cbv zeta in K1, K2, K3, K4.
    rewrite H1, H2, H3, H4, K1, K2, K3, K4.
    change (entry :: list) with ([entry] ++ list)%list.
    rewrite !filter_app, !map_app, <- !app_assoc. auto.
Qed.

(** The buckets of the result: the classified entries in sorted order,
    every occurrence kept. *)
Lemma sortFiles_elements (list : list string) :
  let output := sortFiles dirname list in
  JsArray.elements (BuildFiles.cSources output)
  = Js.sort (filter (fun e => extension e =? "c") list)
  /\ JsArray.elements (BuildFiles.cxxSources output)
     = Js.sort (filter (fun e => (extension e =? "cpp")
                                 || (extension e =? "cxx")
                                 || (extension e =? "cc")) list)
  /\ JsArray.elements (BuildFiles.assemblySources output)
     = Js.sort (filter (fun e => extension e =? "s") list)
  /\ JsArray.elements (BuildFiles.libraryDirectories output)
     = Js.sort (map dirname (filter (fun e => extension e =? "a") list)).
Proof.
  destruct (fold_classify_elements list BuildFiles.new) as (H1 & H2 & H3 & H4).
  cbv zeta in H1, H2, H3, H4 |- *.
  unfold sortFiles, uniqAndSort.
  cbn [BuildFiles.cSources BuildFiles.cxxSources BuildFiles.assemblySources
       BuildFiles.libraryDirectories JsArray.sort JsArray.set
       JsArray.elements].
  now rewrite H1, H2, H3, H4.
Qed.

End SortFilesFacts.

(** C2: on the list [main.c, main.c] the C bucket of [sortFiles] still
    holds the entry twice: the deduplicated copy is stored as a property
    of the array, and the array itself is only sorted. *)
Theorem sortFiles_keeps_duplicates (dirname : string -> string) :
  let output := sortFiles dirname ["main.c"; "main.c"] in
  JsArray.elements (BuildFiles.cSources output) = ["main.c"; "main.c"]
  /\ JsArray.properties (BuildFiles.cSources output)
     = [("cSources", ["main.c"])]
  /\ ~ NoDup (JsArray.elements (BuildFiles.cSources output)).
Proof.
  cbv zeta. split; [reflexivity|]. split; [reflexivity|].
  change (JsArray.elements
            (BuildFiles.cSources (sortFiles dirname ["main.c"; "main.c"])))
    with ["main.c"; "main.c"].
  intros H. inversion H as [|? ? Hn _]. apply Hn. now left.
Qed.

(** Every bucket of the result is in non-descending order. *)
Lemma sortFiles_sorted (dirname : string -> string) (list : list string) :
  let output := sortFiles dirname list in
  nonDescending (JsArray.elements (BuildFiles.cSources output))
  /\ nonDescending (JsArray.elements (BuildFiles.cxxSources output))
  /\ nonDescending (JsArray.elements (BuildFiles.assemblySources output))
  /\ nonDescending (JsArray.elements (BuildFiles.libraryDirectories output)).
Proof.
  destruct (sortFiles_elements dirname list) as (H1 & H2 & H3 & H4).
  cbv zeta in *. rewrite H1, H2, H3, H4.
  repeat split; apply sort_nonDescending.
Qed.




(** ** Prefix removal *)

Lemma dropChars_append (p s : string) :
  dropChars (String.length p) (p ++ s) = s.
Proof. induction p as [|c p IH]; simpl; [now destruct s | exact IH]. Qed.

Lemma removePrefix_prefixed (prefix rest : string) :
  removePrefix prefix (prefix ++ rest) = rest.
Proof.
  unfold removePrefix. now rewrite prefix_append, dropChars_append.
Qed.

Lemma removePrefix_other (prefix entry : string) :
  String.prefix prefix entry = false -> removePrefix prefix entry = entry.
Proof. unfold removePrefix. now intros ->. Qed.

(** C7: prefix removal maps every entry that starts with the prefix to
    what follows that one occurrence, whatever it is, and every other
    entry to itself; on the list of the unit test it gives the list the
    test expects. *)
Theorem removePrefixes_spec (information : list string) (prefix : string) :
  Forall2
    (fun entry result =>
       (exists rest, entry = prefix ++ rest /\ result = rest)
       \/ ((forall rest, entry <> prefix ++ rest) /\ result = entry))
    information (removePrefixes information prefix)
  /\ removePrefixes ["-lentry1"; "-lentry_two-l"; "-l entry three"] "-l"
     = ["entry1"; "entry_two-l"; " entry three"].
Proof.
  split; [|reflexivity].
  induction information as [|entry information IH]; cbn [removePrefixes map];
    constructor; [|exact IH].
  destruct (String.prefix prefix entry) eqn:E.
  - left. destruct (prefix_split _ _ E) as [rest ->].
    exists rest. split; [reflexivity | apply removePrefix_prefixed].
  - right. split; [|now apply removePrefix_other].
    intros rest ->. now rewrite prefix_append in E.
Qed.

(** ** Lines and occurrences *)

Lemma occursIn_trans (p a b : string) :
  occursIn p a -> occursIn a b -> occursIn p b.
Proof.
  intros (x & y & ->) (u & v & ->).
  exists (u ++ x), (y ++ v). now rewrite !append_assoc.
Qed.

Lemma toLower_append (a b : string) :
  toLower (a ++ b) = toLower a ++ toLower b.
Proof. induction a as [|c a IH]; simpl; [reflexivity | now rewrite IH]. Qed.

Lemma occursIn_toLower (p s : string) :
  occursIn p s -> occursIn (toLower p) (toLower s).
Proof.
  intros (a & b & ->). exists (toLower a), (toLower b).
  now rewrite !toLower_append.
Qed.

Lemma split_nonempty (sep : ascii) (s : string) : split sep s <> [].
Proof.
  induction s as [|c s IH]; simpl; [discriminate|].
  destruct (Ascii.eqb c sep); [discriminate|].
  destruct (split sep s); [contradiction | discriminate].
Qed.

Lemma concat_cons (sep x : string) (l : list string) :
  l <> [] -> String.concat sep (x :: l) = x ++ sep ++ String.concat sep l.
Proof. destruct l; [contradiction | reflexivity]. Qed.

(** Joining the segments of a split gives the text back. *)
Lemma concat_split (sep : ascii) (s : string) :
  String.concat (String sep "") (split sep s) = s.
Proof.
  induction s as [|c s IH]; [reflexivity|]. simpl split.
  destruct (Ascii.eqb_spec c sep) as [->|_].
  - rewrite concat_cons by apply split_nonempty. now rewrite IH.
  - destruct (split sep s) as [|seg segs] eqn:E.
    { now elim (split_nonempty sep s). }
    rewrite <- IH. destruct segs; reflexivity.
Qed.

Lemma concat_In_occurs (sep x : string) (l : list string) :
  In x l -> occursIn x (String.concat sep l).
Proof.
  induction l as [|y l IH]; [contradiction|].
  destruct l as [|z l].
  - intros [<- | []]. exists "", "". now rewrite append_empty_r.
  - rewrite concat_cons by discriminate. intros [<- | H].
    + now exists "", (sep ++ String.concat sep (z :: l)).
    + destruct (IH H) as (a & b & ->).
      exists (y ++ sep ++ a), b. now rewrite !append_assoc.
Qed.

Lemma textLines_occurs (text line : string) :
  In line (textLines text) -> occursIn line text.
Proof.
  intros H. rewrite <- (concat_split (ascii_of_nat 10) text).
  now apply concat_In_occurs.
Qed.

(** ** Locating an assignment *)

Lemma trimLeft_suffix (s : string) : exists ws, s = ws ++ trimLeft s.
Proof.
  induction s as [|c s [ws IH]]; [now exists ""|]. simpl.
  destruct (isWhitespace c); [|now exists ""].
  exists (String c ws). simpl. now rewrite <- IH.
Qed.

Lemma afterName_toLower (name line rest : string) :
  afterName name line = Some rest ->
  toLower line = toLower name ++ toLower rest.
Proof.
  revert line; induction name as [|c name IH]; intros line; simpl.
  - now intros [= ->].
  - destruct line as [|d line]; [discriminate|].
    destruct (Ascii.eqb_spec (toLowerChar c) (toLowerChar d)) as [E|];
      [|discriminate].
    intros H. simpl. rewrite E. f_equal. now apply IH.
Qed.

Lemma isAssignmentOf_occurs (name line : string) :
  isAssignmentOf name line = true ->
  occursIn (toLower name) (toLower line).
Proof.
  unfold isAssignmentOf, assignedValue.
  destruct (afterName name (trimLeft line)) as [rest|] eqn:E; [|discriminate].
  intros _. apply afterName_toLower in E.
  destruct (trimLeft_suffix line) as [ws Hws].
  exists (toLower ws), (toLower rest).
  now rewrite <- E, <- toLower_append, <- Hws.
Qed.

Lemma locateAssignment_In (name : string) (lines : list string)
    (line : string) (rest : list string) :
  locateAssignment name lines = Some (line, rest) ->
  In line lines /\ isAssignmentOf name line = true.
Proof.
  induction lines as [|l lines IH]; simpl; [discriminate|].
  destruct (isAssignmentOf name l) eqn:E.
  - intros [= <- <-]. auto.
  - intros H. destruct (IH H). auto.
Qed.

(** C8: multi-line extraction is a total function of the name and the
    text; it gives the empty list when the name occurs nowhere in the
    text (in any letter case), and when the assignment it locates has no
    continuation lines: no continuation marker, or nothing but a blank
    line after it. *)
Theorem extractMultiLineInfo_empty (name makefile : string) :
  (~ occursIn (toLower name) (toLower makefile) ->
   extractMultiLineInfo name makefile = [])
  /\ (forall line rest,
        locateAssignment name (textLines makefile) = Some (line, rest) ->
        endsWithMarker line = false \/ continuationLines rest = [] ->
        extractMultiLineInfo name makefile = []).
Proof.
  unfold extractMultiLineInfo. split.
  - intros Hno.
    destruct (locateAssignment name (textLines makefile))
      as [[line rest]|] eqn:E; [|reflexivity].
    exfalso. apply Hno. apply locateAssignment_In in E as [Hin Ha].
    eapply occursIn_trans; [apply isAssignmentOf_occurs; exact Ha|].
    apply occursIn_toLower. now apply textLines_occurs.
  - intros line rest -> [-> | ->]; [reflexivity|].
    now destruct (endsWithMarker line).
Qed.

Lemma extractMultiLineInfo_empty_witness :
  let makefile :=
    String.concat LF
      ["TARGET = firmware"; ""; "C_SOURCES =  " ++ BACKSLASH; "Src/main.c"] in
  ~ occursIn (toLower "LDFLAGS") (toLower makefile)
  /\ extractMultiLineInfo "LDFLAGS" makefile = []
  /\ locateAssignment "target" (textLines makefile)
     = Some ("TARGET = firmware", [""; "C_SOURCES =  " ++ BACKSLASH; "Src/main.c"])
  /\ endsWithMarker "TARGET = firmware" = false
  /\ extractMultiLineInfo "target" makefile = [].
Proof.
  intros makefile.
  assert (Hno : ~ occursIn (toLower "LDFLAGS") (toLower makefile)).
  { intros H. apply indexOf_occurs in H. vm_compute in H. discriminate. }
  assert (Hloc : locateAssignment "target" (textLines makefile)
                 = Some ("TARGET = firmware",
                         [""; "C_SOURCES =  " ++ BACKSLASH; "Src/main.c"]))
    by reflexivity.
  split; [exact Hno|].
  split; [exact (proj1 (extractMultiLineInfo_empty "LDFLAGS" makefile) Hno)|].
  split; [exact Hloc|]. split; [reflexivity|].
  exact (proj2 (extractMultiLineInfo_empty "target" makefile) _ _ Hloc
           (or_introl eq_refl)).
Defined.

(** ** Character conditions *)

Lemma allChars_append (ok : ascii -> bool) (a b : string) :
  allChars ok (a ++ b) = allChars ok a && allChars ok b.
Proof.
  induction a as [|c a IH]; simpl; [reflexivity|].
  now rewrite IH, andb_assoc.
Qed.

Lemma singleLine_append (a b : string) :
  singleLine (a ++ b) = singleLine a && singleLine b.
Proof. apply allChars_append. Qed.

Lemma noWhitespace_singleLine (s : string) :
  noWhitespace s = true -> singleLine s = true.
Proof.
  induction s as [|c s IH]; simpl; [reflexivity|].
  unfold noWhitespace, singleLine in *. simpl.
  rewrite !andb_true_iff. intros [Hc Hs]. split; [|now apply IH].
  destruct (Ascii.eqb_spec c (ascii_of_nat 10)) as [->|]; [|reflexivity].
  discriminate.
Qed.

Lemma isToken_parts (s : string) :
  isToken s = true ->
  s <> "" /\ noWhitespace s = true
  /\ lastChar s <> Some (ascii_of_nat 92).
Proof.
  unfold isToken. rewrite !andb_true_iff, negb_true_iff.
  intros [[Hne Hws] Hl]. repeat split; try assumption.
  - intros ->. discriminate.
  - destruct (lastChar s) as [c|]; [|discriminate].
    intros [= ->]. discriminate.
Qed.

Lemma isSourceToken_parts (s : string) :
  isSourceToken s = true -> isToken s = true /\ noEquals s = true.
Proof. unfold isSourceToken. now rewrite andb_true_iff. Qed.

(** ** The lines of a joined text *)

Lemma split_append_sep (sep : ascii) (a b : string) :
  split sep (a ++ String sep b) = (split sep a ++ split sep b)%list.
Proof.
  induction a as [|c a IH]; simpl.
  - now rewrite Ascii.eqb_refl.
  - destruct (Ascii.eqb c sep); rewrite IH; [reflexivity|].
    destruct (split sep a) as [|seg segs] eqn:E;
      [now elim (split_nonempty sep a) | reflexivity].
Qed.

Lemma textLines_concat (parts : list string) :
  parts <> [] ->
  textLines (String.concat LF parts) = flat_map textLines parts.
Proof.
  induction parts as [|x parts IH]; [contradiction|]. intros _.
  destruct parts as [|y parts].
  - simpl. now rewrite app_nil_r.
  - rewrite concat_cons by discriminate.
    unfold textLines in *. unfold LF at 1.
    change (String (ascii_of_nat 10) "" ++ String.concat LF (y :: parts))
      with (String (ascii_of_nat 10) (String.concat LF (y :: parts))).
    rewrite split_append_sep, IH by discriminate. reflexivity.
Qed.

Lemma textLines_singleLine (s : string) :
  singleLine s = true -> textLines s = [s].
Proof.
  unfold textLines, singleLine.
  induction s as [|c s IH]; simpl; [reflexivity|].
  rewrite andb_true_iff, negb_true_iff. intros [-> Hs].
  now rewrite (IH Hs).
Qed.

Lemma textLines_append_LF (a b : string) :
  textLines (a ++ LF ++ b) = (textLines a ++ textLines b)%list.
Proof. unfold textLines. apply split_append_sep. Qed.

Lemma textLines_continuedLines (p : string) (entries : list string) :
  singleLine p = true ->
  forallb singleLine entries = true ->
  textLines (continuedLines p entries) = blockLines p entries.
Proof.
  intros Hp. induction entries as [|x entries IH]; [reflexivity|].
  cbn [forallb]. rewrite andb_true_iff. intros [Hx Hs].
  destruct entries as [|y entries].
  - cbn [continuedLines blockLines].
    replace (p ++ x ++ LF) with ((p ++ x) ++ LF ++ "")
      by now rewrite append_assoc.
    rewrite textLines_append_LF, textLines_singleLine
      by now rewrite singleLine_append, Hp, Hx.
    reflexivity.
  - remember (y :: entries) as tail.
    assert (E : continuedLines p (x :: tail)
                = (p ++ x ++ " " ++ BACKSLASH) ++ LF ++ continuedLines p tail).
    { subst tail. cbn [continuedLines]. now rewrite !append_assoc. }
    assert (E' : blockLines p (x :: tail)
                 = (p ++ x ++ " " ++ BACKSLASH) :: blockLines p tail).
    { subst tail. reflexivity. }
    rewrite E, E', textLines_append_LF, (IH Hs).
    rewrite textLines_singleLine; [reflexivity|].
    now rewrite !singleLine_append, Hp, Hx.
Qed.

(** ** Trimming the lines of a block *)

Lemma trimRight_noWhitespace (s : string) :
  noWhitespace s = true -> trimRight s = s.
Proof.
  unfold noWhitespace.
  induction s as [|c s IH]; simpl; [reflexivity|].
  rewrite andb_true_iff, negb_true_iff. intros [Hc Hs].
  rewrite (IH Hs), Hc. now destruct s.
Qed.

Lemma trimRight_append_kept (a b : string) :
  trimRight b <> "" -> trimRight (a ++ b) = a ++ trimRight b.
Proof.
  intros Hb. induction a as [|c a IH]; [reflexivity|].
  simpl. rewrite IH. destruct (a ++ trimRight b) eqn:E; [|reflexivity].
  destruct a; simpl in E; [contradiction | discriminate].
Qed.

Lemma trimRight_append_space (a : string) :
  trimRight (a ++ " ") = trimRight a.
Proof. induction a as [|c a IH]; simpl; [reflexivity | now rewrite IH]. Qed.

Lemma trimLeft_started (s : string) :
  s <> "" -> noWhitespace s = true -> forall t, trimLeft (s ++ t) = s ++ t.
Proof.
  destruct s as [|c s]; [contradiction|]. intros _. unfold noWhitespace.
  simpl. rewrite andb_true_iff, negb_true_iff. now intros [-> _] t.
Qed.

Lemma lastChar_append_char (a : string) (c : ascii) :
  lastChar (a ++ String c "") = Some c.
Proof.
  induction a as [|d a IH]; [reflexivity|].
  simpl. rewrite IH. now destruct a.
Qed.

Lemma dropLast_append_char (a : string) (c : ascii) :
  dropLast (a ++ String c "") = a.
Proof.
  induction a as [|d a IH]; [reflexivity|].
  simpl. rewrite IH. now destruct a.
Qed.

Section BlockLine.

(** [x] is the text of a line before the marker: a prefix and a token. *)
Variable x : string.
Hypothesis x_nonempty : x <> "".
Hypothesis x_noWhitespace : noWhitespace x = true.
Hypothesis x_noMarker : lastChar x <> Some (ascii_of_nat 92).

Lemma marked_trimRight :
  trimRight (x ++ " " ++ BACKSLASH) = (x ++ " ") ++ BACKSLASH.
Proof.
  rewrite trimRight_append_kept by discriminate.
  now rewrite append_assoc.
Qed.

Lemma marked_endsWithMarker : endsWithMarker (x ++ " " ++ BACKSLASH) = true.
Proof.
  unfold endsWithMarker. rewrite marked_trimRight.
  unfold BACKSLASH. now rewrite lastChar_append_char.
Qed.

Lemma marked_isBlank : isBlank (x ++ " " ++ BACKSLASH) = false.
Proof.
  unfold isBlank. rewrite trimLeft_started by assumption.
  now destruct x.
Qed.

Lemma marked_entryOf : entryOf (x ++ " " ++ BACKSLASH) = x.
Proof.
  unfold entryOf. rewrite marked_endsWithMarker, marked_trimRight.
  unfold BACKSLASH. rewrite dropLast_append_char.
  unfold trim. rewrite trimLeft_started by assumption.
  now rewrite trimRight_append_space, trimRight_noWhitespace.
Qed.

Lemma plain_endsWithMarker : endsWithMarker x = false.
Proof.
  unfold endsWithMarker. rewrite trimRight_noWhitespace by assumption.
  destruct (lastChar x) as [c|]; [|reflexivity].
  destruct (Ascii.eqb_spec c (ascii_of_nat 92)) as [->|]; [|reflexivity].
  now elim x_noMarker.
Qed.

Lemma plain_isBlank : isBlank x = false.
Proof.
  unfold isBlank. rewrite <- (append_empty_r x).
  rewrite trimLeft_started by assumption. rewrite append_empty_r.
  now destruct x.
Qed.

Lemma plain_entryOf : entryOf x = x.
Proof.
  unfold entryOf. rewrite plain_endsWithMarker. unfold trim.
  rewrite <- (append_empty_r x) at 1.
  rewrite trimLeft_started by assumption.
  now rewrite append_empty_r, trimRight_noWhitespace.
Qed.

End BlockLine.

(** A prefix without whitespace in front of a token gives the text of
    a line as above. *)
Lemma prefixed_token (p e : string) :
  noWhitespace p = true -> isToken e = true ->
  p ++ e <> "" /\ noWhitespace (p ++ e) = true
  /\ lastChar (p ++ e) <> Some (ascii_of_nat 92).
Proof.
  intros Hp He. apply isToken_parts in He as (Hne & Hws & Hl).
  repeat split.
  - destruct p; [assumption | discriminate].
  - unfold noWhitespace in *. now rewrite allChars_append, Hp, Hws.
  - clear Hp Hws. induction p as [|c p IH]; [assumption|].
    simpl. destruct (p ++ e) eqn:E; [|assumption].
    destruct p; simpl in E; [contradiction | discriminate].
Qed.

(** Reading the lines of a block gives back the prefixed entries,
    whatever follows the block. *)
Lemma continuationLines_block (p : string) (entries rest : list string) :
  noWhitespace p = true ->
  forallb isToken entries = true ->
  continuationLines (blockLines p entries ++ rest)%list
  = removelast (blockLines p entries).
Proof.
  intros Hp. induction entries as [|e entries IH]; [reflexivity|].
  cbn [forallb]. rewrite andb_true_iff. intros [He Hs].
  destruct (prefixed_token p e Hp He) as (H1 & H2 & H3).
  destruct entries as [|e' entries].
  - cbn [blockLines app continuationLines removelast].
    now rewrite plain_isBlank, plain_endsWithMarker.
  - remember (e' :: entries) as tail.
    assert (E : blockLines p (e :: tail)
                = (p ++ e ++ " " ++ BACKSLASH) :: blockLines p tail)
      by (subst tail; reflexivity).
    rewrite E. cbn [app continuationLines].
    rewrite <- append_assoc.
    rewrite marked_isBlank, marked_endsWithMarker by assumption.
    rewrite (IH Hs).
    assert (Hne : blockLines p tail <> [])
      by (subst tail; destruct entries; discriminate).
    destruct (blockLines p tail); [contradiction | reflexivity].
Qed.

Lemma entryOf_block (p : string) (entries : list string) :
  noWhitespace p = true ->
  forallb isToken entries = true ->
  map entryOf (removelast (blockLines p entries))
  = map (String.append p) entries.
Proof.
  intros Hp. induction entries as [|e entries IH]; [reflexivity|].
  cbn [forallb]. rewrite andb_true_iff. intros [He Hs].
  destruct (prefixed_token p e Hp He) as (H1 & H2 & H3).
  destruct entries as [|e' entries].
  - cbn [blockLines removelast map]. now rewrite plain_entryOf.
  - remember (e' :: entries) as tail.
    assert (E : blockLines p (e :: tail)
                = (p ++ e ++ " " ++ BACKSLASH) :: blockLines p tail)
      by (subst tail; reflexivity).
    rewrite E.
    assert (Hne : blockLines p tail <> [])
      by (subst tail; destruct entries; discriminate).
    assert (R : removelast ((p ++ e ++ " " ++ BACKSLASH) :: blockLines p tail)
                = (p ++ e ++ " " ++ BACKSLASH)
                    :: removelast (blockLines p tail)).
    { destruct (blockLines p tail); [contradiction | reflexivity]. }
    rewrite R. cbn [map]. rewrite (IH Hs), <- append_assoc.
    now rewrite marked_entryOf.
Qed.

(** ** Lines that assign nothing *)

Lemma locateAssignment_skip (name : string) (before rest : list string) :
  Forall (fun line => isAssignmentOf name line = false) before ->
  locateAssignment name (before ++ rest)%list = locateAssignment name rest.
Proof.
  induction 1 as [|line before Hl _ IH]; [reflexivity|].
  cbn [app locateAssignment]. now rewrite Hl.
Qed.

Lemma assignsNowhere_lines (name : string) (parts : list string) :
  Forall (fun x => assignsNowhere name x = true) parts ->
  Forall (fun line => isAssignmentOf name line = false)
    (flat_map textLines parts).
Proof.
  induction 1 as [|x parts Hx _ IH]; [constructor|].
  cbn [flat_map]. apply Forall_app. split; [|exact IH].
  unfold assignsNowhere in Hx. rewrite forallb_forall in Hx.
  apply Forall_forall. intros line Hl.
  now apply negb_true_iff, Hx.
Qed.

Lemma differsFrom_afterName (name head tail : string) :
  differsFrom name head = true -> afterName name (head ++ tail) = None.
Proof.
  revert head; induction name as [|c name IH]; intros [|d head];
    simpl; try discriminate.
  destruct (Ascii.eqb (toLowerChar c) (toLowerChar d)); [apply IH | reflexivity].
Qed.

Lemma headRejects_line (name head tail : string) :
  headRejects name head = true -> isAssignmentOf name (head ++ tail) = false.
Proof.
  destruct head as [|c head]; [discriminate|].
  unfold headRejects. rewrite andb_true_iff, negb_true_iff. intros [Hc Hd].
  unfold isAssignmentOf, assignedValue.
  change (String c head ++ tail) with (String c (head ++ tail)).
  cbn [trimLeft]. rewrite Hc.
  change (String c (head ++ tail)) with (String c head ++ tail).
  now rewrite differsFrom_afterName.
Qed.

Lemma headRejects_name (name head : string) :
  headRejects name head = true -> name <> "".
Proof. intros H ->. destruct head; [discriminate|]. simpl in H.
  now rewrite andb_false_r in H. Qed.

Lemma isAssignmentOf_empty (name : string) : isAssignmentOf name "" = false.
Proof. now destruct name. Qed.

(** A line that starts with text no assignment of [name] can start
    with. *)
Lemma assignsNowhere_head (name head tail : string) :
  headRejects name head = true ->
  singleLine (head ++ tail) = true ->
  assignsNowhere name (head ++ tail) = true.
Proof.
  intros Hh Hs. unfold assignsNowhere.
  rewrite textLines_singleLine by assumption.
  cbn [forallb]. now rewrite headRejects_line.
Qed.

Lemma afterName_suffix (name line rest : string) :
  afterName name line = Some rest -> exists before, line = before ++ rest.
Proof.
  revert line; induction name as [|c name IH]; intros line; simpl.
  - intros [= ->]. now exists "".
  - destruct line as [|d line]; [discriminate|].
    destruct (Ascii.eqb (toLowerChar c) (toLowerChar d)); [|discriminate].
    intros H. destruct (IH _ H) as [before ->]. now exists (String d before).
Qed.

Lemma noEquals_suffix (a b : string) :
  noEquals (a ++ b) = true -> noEquals b = true.
Proof.
  unfold noEquals. rewrite allChars_append, andb_true_iff. tauto.
Qed.

Lemma prefix_char (c : ascii) (s : string) :
  String.prefix (String c "") s = true -> exists rest, s = String c rest.
Proof.
  intros H. destruct (prefix_split _ _ H) as [rest ->]. now exists rest.
Qed.

Lemma prefix_two (c1 c2 : ascii) (s : string) :
  String.prefix (String c1 (String c2 "")) s = true ->
  exists rest, s = String c1 (String c2 rest).
Proof.
  intros H. destruct (prefix_split _ _ H) as [rest ->]. now exists rest.
Qed.

Lemma afterOperator_equals (rest value : string) :
  afterOperator rest = Some value -> noEquals rest = false.
Proof.
  unfold afterOperator.
  destruct (String.prefix "=" rest) eqn:E.
  { intros _. apply prefix_char in E as [r ->]. reflexivity. }
  destruct (String.prefix "+=" rest) eqn:E1.
  { intros _. apply prefix_two in E1 as [r ->]. reflexivity. }
  destruct (String.prefix ":=" rest) eqn:E2.
  { intros _. apply prefix_two in E2 as [r ->]. reflexivity. }
  destruct (String.prefix "?=" rest) eqn:E3.
  { intros _. apply prefix_two in E3 as [r ->]. reflexivity. }
  discriminate.
Qed.

Lemma isAssignmentOf_equals (name line : string) :
  noEquals line = true -> isAssignmentOf name line = false.
Proof.
  intros Hn. unfold isAssignmentOf, assignedValue.
  destruct (afterName name (trimLeft line)) as [rest|] eqn:E; [|reflexivity].
  destruct (afterOperator (trimLeft rest)) as [value|] eqn:E'; [|reflexivity].
  exfalso. apply afterOperator_equals in E'.
  apply afterName_suffix in E as [before E].
  destruct (trimLeft_suffix line) as [ws Hws].
  destruct (trimLeft_suffix rest) as [ws' Hws'].
  rewrite Hws, E, Hws' in Hn.
  do 3 apply noEquals_suffix in Hn. congruence.
Qed.

Lemma noEquals_occursIn (line x : string) :
  occursIn line x -> noEquals x = true -> noEquals line = true.
Proof.
  intros (a & b & ->). unfold noEquals.
  rewrite !allChars_append, !andb_true_iff. tauto.
Qed.

(** A text without [=] assigns nothing. *)
Lemma assignsNowhere_noEquals (name x : string) :
  noEquals x = true -> assignsNowhere name x = true.
Proof.
  intros Hn. unfold assignsNowhere. apply forallb_forall. intros line Hl.
  apply negb_true_iff, isAssignmentOf_equals.
  eapply noEquals_occursIn; [apply textLines_occurs|]; eassumption.
Qed.

Lemma forallb_sort_uniq (ok : string -> bool) (arr : list string) :
  forallb ok arr = true -> forallb ok (Js.sort (Js.uniq arr)) = true.
Proof.
  rewrite !forallb_forall. intros H x Hx. apply H. now apply sort_uniq_In.
Qed.

Lemma forallb_weaken (P Q : string -> bool) (l : list string) :
  (forall x, P x = true -> Q x = true) ->
  forallb P l = true -> forallb Q l = true.
Proof.
  intros HPQ. rewrite !forallb_forall. auto.
Qed.

Lemma isToken_singleLine (s : string) :
  isToken s = true -> singleLine s = true.
Proof.
  intros H. apply isToken_parts in H as (_ & H & _).
  now apply noWhitespace_singleLine.
Qed.

(** The block of a group with a flag prefix assigns nothing. *)
Lemma assignsNowhere_prefixed (name p : string) (arr : list string) :
  headRejects name p = true ->
  singleLine p = true ->
  forallb singleLine arr = true ->
  assignsNowhere name (createStringList arr (Some p)) = true.
Proof.
  intros Hh Hp Hs. rewrite createStringList_continuedLines.
  cbn [prefixText]. unfold assignsNowhere.
  apply forallb_sort_uniq in Hs.
  rewrite textLines_continuedLines by assumption.
  clear Hs. induction (Js.sort (Js.uniq arr)) as [|e entries IH].
  - cbn. now rewrite isAssignmentOf_empty.
  - destruct entries as [|e' entries].
    + cbn [blockLines forallb].
      now rewrite headRejects_line, isAssignmentOf_empty.
    + remember (e' :: entries) as tail.
      assert (E : blockLines p (e :: tail)
                  = (p ++ e ++ " " ++ BACKSLASH) :: blockLines p tail)
        by (subst tail; reflexivity).
      rewrite E. cbn [forallb]. now rewrite headRejects_line, IH.
Qed.

Lemma noEquals_continuedLines (entries : list string) :
  forallb noEquals entries = true ->
  noEquals (continuedLines "" entries) = true.
Proof.
  induction entries as [|e entries IH]; [reflexivity|].
  cbn [forallb]. rewrite andb_true_iff. intros [He Hs].
  destruct entries as [|e' entries].
  - cbn [continuedLines]. unfold noEquals in *.
    now rewrite !allChars_append, He.
  - remember (e' :: entries) as tail.
    assert (E : continuedLines "" (e :: tail)
                = "" ++ e ++ " " ++ BACKSLASH ++ LF ++ continuedLines "" tail)
      by (subst tail; reflexivity).
    rewrite E. unfold noEquals in *.
    rewrite !allChars_append, He, (IH Hs). reflexivity.
Qed.

(** The block of a source group assigns nothing. *)
Lemma assignsNowhere_sources (name : string) (arr : list string) :
  forallb isSourceToken arr = true ->
  assignsNowhere name (createStringList arr None) = true.
Proof.
  intros Hs. apply assignsNowhere_noEquals.
  rewrite createStringList_continuedLines. cbn [prefixText].
  apply noEquals_continuedLines, forallb_sort_uniq.
  revert Hs. apply forallb_weaken. intros x Hx.
  now apply isSourceToken_parts in Hx.
Qed.

(** ** Extracting a block of the generated text *)

Lemma located_block (name assign : string) (before after : list string)
    (block : string) :
  Forall (fun x => assignsNowhere name x = true) before ->
  singleLine assign = true ->
  isAssignmentOf name assign = true ->
  locateAssignment name
    (textLines (String.concat LF (before ++ assign :: block :: after)%list))
  = Some (assign, (textLines block ++ flat_map textLines after)%list).
Proof.
  intros Hb Hs Ha.
  rewrite textLines_concat by (destruct before; discriminate).
  rewrite flat_map_app. cbn [flat_map].
  rewrite locateAssignment_skip by now apply assignsNowhere_lines.
  rewrite (textLines_singleLine assign Hs).
  cbn [app locateAssignment]. now rewrite Ha.
Qed.

Lemma extractMultiLineInfo_block (name assign : string)
    (prefix : option string) (before after : list string)
    (arr : list string) :
  Forall (fun x => assignsNowhere name x = true) before ->
  singleLine assign = true ->
  isAssignmentOf name assign = true ->
  endsWithMarker assign = true ->
  noWhitespace (prefixText prefix) = true ->
  forallb isToken arr = true ->
  extractMultiLineInfo name
    (String.concat LF
       (before ++ assign :: createStringList arr prefix :: after)%list)
  = map (String.append (prefixText prefix)) (Js.sort (Js.uniq arr)).
Proof.
  intros Hb Hs Ha Hm Hp Ht. unfold extractMultiLineInfo.
  rewrite located_block by assumption. rewrite Hm.
  apply forallb_sort_uniq in Ht.
  rewrite createStringList_continuedLines, textLines_continuedLines.
  - rewrite continuationLines_block by assumption.
    now apply entryOf_block.
  - now apply noWhitespace_singleLine.
  - revert Ht. apply forallb_weaken, isToken_singleLine.
Qed.

Lemma removePrefixes_prefixed (p : string) (l : list string) :
  removePrefixes (map (String.append p) l) p = l.
Proof.
  unfold removePrefixes. rewrite map_map.
  induction l as [|x l IH]; [reflexivity|].
  cbn [map]. now rewrite removePrefix_prefixed, IH.
Qed.

Lemma sameMembers_sort_uniq (arr : list string) :
  sameMembers (Js.sort (Js.uniq arr)) arr.
Proof. intros x. apply sort_uniq_In. Qed.

(** ** Words *)

Lemma wordsFrom_token (x : string) :
  noWhitespace x = true ->
  forall current s, wordsFrom current (x ++ s) = wordsFrom (current ++ x) s.
Proof.
  unfold noWhitespace.
  induction x as [|c x IH]; intros Hx current s.
  - now rewrite append_empty_r.
  - simpl in Hx. rewrite andb_true_iff, negb_true_iff in Hx.
    destruct Hx as [Hc Hx].
    change (String c x ++ s) with (String c (x ++ s)).
    cbn [wordsFrom]. rewrite Hc, (IH Hx).
    now rewrite append_assoc.
Qed.

Lemma words_marked (x : string) :
  x <> "" -> noWhitespace x = true ->
  words (x ++ " " ++ BACKSLASH) = [x; BACKSLASH].
Proof.
  intros Hne Hx. unfold words. rewrite wordsFrom_token by assumption.
  cbn. destruct (String.eqb_spec x ""); [contradiction | reflexivity].
Qed.

Lemma words_plain (x : string) :
  x <> "" -> noWhitespace x = true -> words x = [x].
Proof.
  intros Hne Hx. unfold words. rewrite <- (append_empty_r x) at 1.
  rewrite wordsFrom_token by assumption.
  cbn. destruct (String.eqb_spec x ""); [contradiction | reflexivity].
Qed.

Lemma words_block (entries : list string) :
  forallb isToken entries = true ->
  filter (String.prefix "-l")
    (flat_map words (removelast (blockLines "-l" entries)))
  = map (String.append "-l") entries.
Proof.
  induction entries as [|e entries IH]; [reflexivity|].
  cbn [forallb]. rewrite andb_true_iff. intros [He Hs].
  destruct (prefixed_token "-l" e eq_refl He) as (H1 & H2 & H3).
  destruct entries as [|e' entries].
  - cbn [blockLines removelast flat_map map].
    rewrite words_plain by assumption. cbn [app filter].
    now rewrite prefix_append.
  - remember (e' :: entries) as tail.
    assert (E : blockLines "-l" (e :: tail)
                = ("-l" ++ e ++ " " ++ BACKSLASH) :: blockLines "-l" tail)
      by (subst tail; reflexivity).
    assert (Hne : blockLines "-l" tail <> [])
      by (subst tail; destruct entries; discriminate).
    rewrite E.
    assert (R : removelast
                  (("-l" ++ e ++ " " ++ BACKSLASH) :: blockLines "-l" tail)
                = ("-l" ++ e ++ " " ++ BACKSLASH)
                    :: removelast (blockLines "-l" tail)).
    { destruct (blockLines "-l" tail); [contradiction | reflexivity]. }
    rewrite R. cbn [flat_map map]. rewrite <- append_assoc.
    rewrite words_marked by assumption.
    cbn [app filter]. rewrite prefix_append.
    change (String.prefix "-l" BACKSLASH) with false.
    now rewrite (IH Hs).
Qed.

Lemma extractlibraries_block (assign : string) (before after : list string)
    (arr : list string) :
  Forall (fun x => assignsNowhere "libraries" x = true) before ->
  singleLine assign = true ->
  isAssignmentOf "libraries" assign = true ->
  endsWithMarker assign = true ->
  filter (String.prefix "-l")
    (words match assignedValue "libraries" assign with
           | Some v => v
           | None => ""
           end) = [] ->
  forallb isToken arr = true ->
  extractlibraries
    (String.concat LF
       (before ++ assign :: createStringList arr (Some "-l") :: after)%list)
  = map (String.append "-l") (Js.sort (Js.uniq arr)).
Proof.
  intros Hb Hs Ha Hm Hv Ht. unfold extractlibraries.
  rewrite located_block by assumption. rewrite Hm.
  cbn [flat_map]. rewrite filter_app, Hv. cbn [app].
  apply forallb_sort_uniq in Ht.
  rewrite createStringList_continuedLines. cbn [prefixText].
  rewrite textLines_continuedLines.
  - rewrite continuationLines_block by (reflexivity || assumption).
    now apply words_block.
  - reflexivity.
  - revert Ht. apply forallb_weaken, isToken_singleLine.
Qed.

(** ** One-line fragments of the template *)

Lemma singleLine_createPrefixWhenNoneExists (x prefix : string) :
  singleLine x = true -> singleLine prefix = true ->
  singleLine (createPrefixWhenNoneExists (Some x) prefix) = true.
Proof.
  intros Hx Hp. rewrite createPrefixWhenNoneExists_cases.
  destruct (x =? ""); [reflexivity|].
  destruct (0 <=? Js.indexOf x prefix)%Z; [assumption|].
  now rewrite singleLine_append, Hp, Hx.
Qed.

Lemma singleLine_fold_singleLineStep (prefix : option string)
    (entries : list string) :
  singleLine (prefixText prefix) = true ->
  forallb singleLine entries = true ->
  forall output, singleLine output = true ->
    singleLine (fold_left (singleLineStep prefix) entries output) = true.
Proof.
  intros Hp. induction entries as [|e entries IH]; intros Hs output Ho;
    [assumption|].
  cbn [forallb] in Hs. apply andb_true_iff in Hs as [He Hs].
  cbn [fold_left]. apply IH; [assumption|].
  unfold singleLineStep. rewrite appendPrefix_text.
  now rewrite !singleLine_append, Ho, Hp, He.
Qed.

Lemma singleLine_createSingleLineStringList (arr : list string) :
  forallb singleLine arr = true ->
  singleLine (createSingleLineStringList arr None) = true.
Proof.
  intros Hs. unfold createSingleLineStringList.
  apply singleLine_fold_singleLineStep; try reflexivity.
  now apply forallb_sort_uniq.
Qed.

(** ** The groups of a generated Makefile *)

Lemma wellFormed_parts (m : MakeInfo.t) :
  wellFormed m = true ->
  (singleLine (MakeInfo.target m) = true
   /\ singleLine (MakeInfo.optimization m) = true
   /\ singleLine (MakeInfo.cpu m) = true
   /\ singleLine (MakeInfo.fpu m) = true
   /\ singleLine (MakeInfo.floatAbi m) = true
   /\ singleLine (MakeInfo.ldscript m) = true)
  /\ (forallb singleLine (MakeInfo.cFlags m) = true
      /\ forallb singleLine (MakeInfo.cxxFlags m) = true
      /\ forallb singleLine (MakeInfo.assemblyFlags m) = true)
  /\ (forallb isSourceToken (MakeInfo.cSources m) = true
      /\ forallb isSourceToken (MakeInfo.cxxSources m) = true
      /\ forallb isSourceToken (MakeInfo.asmSources m) = true)
  /\ (forallb isToken (MakeInfo.cIncludes m) = true
      /\ forallb isToken (MakeInfo.cDefs m) = true
      /\ forallb isToken (MakeInfo.cxxDefs m) = true
      /\ forallb isToken (MakeInfo.asDefs m) = true
      /\ forallb isToken (MakeInfo.libs m) = true
      /\ forallb isToken (MakeInfo.libdir m) = true).
Proof.
  unfold wellFormed. rewrite !andb_true_iff. tauto.
Qed.

Lemma forallb_isToken_singleLine (l : list string) :
  forallb isToken l = true -> forallb singleLine l = true.
Proof. apply forallb_weaken, isToken_singleLine. Qed.

Lemma forallb_isSourceToken_isToken (l : list string) :
  forallb isSourceToken l = true -> forallb isToken l = true.
Proof.
  apply forallb_weaken. intros x Hx. now apply isSourceToken_parts in Hx.
Qed.

Ltac solve_singleLine :=
  rewrite ?singleLine_append;
  repeat match goal with
         | H : singleLine ?x = true |- context [singleLine ?x] => rewrite H
         end;
  reflexivity.

Ltac solve_part :=
  first
    [ apply assignsNowhere_prefixed; [reflexivity | reflexivity | assumption]
    | apply assignsNowhere_sources; assumption
    | apply assignsNowhere_head; [reflexivity | solve_singleLine]
    | vm_compute; reflexivity ].

Ltac solve_parts :=
  repeat (apply Forall_cons; [solve_part|]); apply Forall_nil.

Section GeneratedGroups.

Variables envFile makefileName : string.
Variable m : MakeInfo.t.
Hypothesis envFile_singleLine : singleLine envFile = true.
Hypothesis makefileName_singleLine : singleLine makefileName = true.
Hypothesis m_wellFormed : wellFormed m = true.

Ltac use_wellFormed :=
  destruct (wellFormed_parts m m_wellFormed)
    as ((Htarget & Hopt & Hcpu & Hfpu & Hfloat & Hld)
        & (HcFlags & HcxxFlags & HasFlags)
        & (HcSrc & HcxxSrc & HasmSrc)
        & (Hinc & HcDefs & HcxxDefs & HasDefs & Hlibs & Hlibdir));
  pose proof (singleLine_createPrefixWhenNoneExists _ "-mcpu=" Hcpu eq_refl);
  pose proof (singleLine_createPrefixWhenNoneExists _ "-mfpu=" Hfpu eq_refl);
  pose proof
    (singleLine_createPrefixWhenNoneExists _ "-mfloat-abi=" Hfloat eq_refl);
  pose proof (singleLine_createSingleLineStringList _ HcFlags);
  pose proof (singleLine_createSingleLineStringList _ HcxxFlags);
  pose proof (singleLine_createSingleLineStringList _ HasFlags);
  pose proof (forallb_isToken_singleLine _ Hinc);
  pose proof (forallb_isToken_singleLine _ HcDefs);
  pose proof (forallb_isToken_singleLine _ HcxxDefs);
  pose proof (forallb_isToken_singleLine _ HasDefs);
  pose proof (forallb_isToken_singleLine _ Hlibs);
  pose proof (forallb_isToken_singleLine _ Hlibdir);
  pose proof (forallb_isSourceToken_isToken _ HcSrc);
  pose proof (forallb_isSourceToken_isToken _ HcxxSrc);
  pose proof (forallb_isSourceToken_isToken _ HasmSrc).

Ltac split_template k :=
  unfold createMakefile;
  rewrite <- (firstn_skipn k (createMakefileLines envFile makefileName m));
  unfold createMakefileLines; cbn [firstn skipn].

Lemma generated_C_DEFINITIONS :
  extractMultiLineInfo "C_DEFINITIONS"
    (createMakefile envFile makefileName m)
  = map (String.append "-D") (Js.sort (Js.uniq (MakeInfo.cDefs m))).
Proof.
  use_wellFormed. split_template 82.
  apply (extractMultiLineInfo_block "C_DEFINITIONS" _ (Some "-D"));
    [solve_parts | reflexivity.. | assumption].
Qed.

Lemma generated_CXX_DEFINITIONS :
  extractMultiLineInfo "CXX_DEFINITIONS"
    (createMakefile envFile makefileName m)
  = map (String.append "-D") (Js.sort (Js.uniq (MakeInfo.cxxDefs m))).
Proof.
  use_wellFormed. split_template 86.
  apply (extractMultiLineInfo_block "CXX_DEFINITIONS" _ (Some "-D"));
    [solve_parts | reflexivity.. | assumption].
Qed.

Lemma generated_AS_DEFINITIONS :
  extractMultiLineInfo "AS_DEFINITIONS"
    (createMakefile envFile makefileName m)
  = map (String.append "-D") (Js.sort (Js.uniq (MakeInfo.asDefs m))).
Proof.
  use_wellFormed. split_template 90.
  apply (extractMultiLineInfo_block "AS_DEFINITIONS" _ (Some "-D"));
    [solve_parts | reflexivity.. | assumption].
Qed.

Lemma generated_C_SOURCES :
  extractMultiLineInfo "C_SOURCES"
    (createMakefile envFile makefileName m)
  = map (String.append "") (Js.sort (Js.uniq (MakeInfo.cSources m))).
Proof.
  use_wellFormed. split_template 99.
  apply (extractMultiLineInfo_block "C_SOURCES" _ (None));
    [solve_parts | reflexivity.. | assumption].
Qed.

Lemma generated_CXX_SOURCES :
  extractMultiLineInfo "CXX_SOURCES"
    (createMakefile envFile makefileName m)
  = map (String.append "") (Js.sort (Js.uniq (MakeInfo.cxxSources m))).
Proof.
  use_wellFormed. split_template 102.
  apply (extractMultiLineInfo_block "CXX_SOURCES" _ (None));
    [solve_parts | reflexivity.. | assumption].
Qed.

Lemma generated_AS_SOURCES :
  extractMultiLineInfo "AS_SOURCES"
    (createMakefile envFile makefileName m)
  = map (String.append "") (Js.sort (Js.uniq (MakeInfo.asmSources m))).
Proof.
  use_wellFormed. split_template 106.
  apply (extractMultiLineInfo_block "AS_SOURCES" _ (None));
    [solve_parts | reflexivity.. | assumption].
Qed.

Lemma generated_C_INCLUDES :
  extractMultiLineInfo "C_INCLUDES"
    (createMakefile envFile makefileName m)
  = map (String.append "-I") (Js.sort (Js.uniq (MakeInfo.cIncludes m))).
Proof.
  use_wellFormed. split_template 117.
  apply (extractMultiLineInfo_block "C_INCLUDES" _ (Some "-I"));
    [solve_parts | reflexivity.. | assumption].
Qed.

Lemma generated_LIBRARY_DIRECTORIES :
  extractMultiLineInfo "LIBRARY_DIRECTORIES"
    (createMakefile envFile makefileName m)
  = map (String.append "-L") (Js.sort (Js.uniq (MakeInfo.libdir m))).
Proof.
  use_wellFormed. split_template 193.
  apply (extractMultiLineInfo_block "LIBRARY_DIRECTORIES" _ (Some "-L"));
    [solve_parts | reflexivity.. | assumption].
Qed.

Lemma generated_LIBRARIES :
  extractlibraries (createMakefile envFile makefileName m)
  = map (String.append "-l") (Js.sort (Js.uniq (MakeInfo.libs m))).
Proof.
  use_wellFormed. split_template 189.
  apply extractlibraries_block;
    [solve_parts | reflexivity.. | assumption].
Qed.

End GeneratedGroups.

(** ** The round trip through the generated text *)

Lemma map_append_empty (l : list string) : map (String.append "") l = l.
Proof. apply map_id. Qed.

(** C1, as amended: for a description whose group entries are tokens
    (not empty, no whitespace, no trailing backslash; no [=] in source
    entries) and whose text fields rendered before the last group hold
    no line break, extracting the generated Makefile gives back the
    source, include, definition and library groups, prefixes removed,
    as sets. *)
Theorem roundTrip_wellFormed (envFile makefileName : string)
    (m : MakeInfo.t) :
  singleLine envFile = true ->
  singleLine makefileName = true ->
  wellFormed m = true ->
  roundTrip envFile makefileName m.
Proof.
  intros HE HM Hm. unfold roundTrip, extractMakefileInfo.
  cbn [ExtractedMakefileInfo.cSources ExtractedMakefileInfo.cxxSources
       ExtractedMakefileInfo.assemblySources
       ExtractedMakefileInfo.cIncludeDirectories
       ExtractedMakefileInfo.cDefinitions
       ExtractedMakefileInfo.cxxDefinitions
       ExtractedMakefileInfo.assemblyDefinitions
       ExtractedMakefileInfo.libraries
       ExtractedMakefileInfo.libraryDirectories].
  rewrite generated_C_SOURCES, generated_CXX_SOURCES, generated_AS_SOURCES,
    generated_C_INCLUDES, generated_C_DEFINITIONS, generated_CXX_DEFINITIONS,
    generated_AS_DEFINITIONS, generated_LIBRARIES,
    generated_LIBRARY_DIRECTORIES by assumption.
  rewrite !map_append_empty, !removePrefixes_prefixed.
  repeat split; apply sort_uniq_In.
Qed.

Lemma roundTrip_wellFormed_witness :
  singleLine ".stm32env" = true
  /\ singleLine "STM32Make.make" = true
  /\ wellFormed (sampleInfo ["Src/main.c"; "Src/a.c"; "Src/main.c"]) = true
  /\ roundTrip ".stm32env" "STM32Make.make"
       (sampleInfo ["Src/main.c"; "Src/a.c"; "Src/main.c"]).
Proof.
  split; [reflexivity|]. split; [reflexivity|]. split; [reflexivity|].
  apply roundTrip_wellFormed; reflexivity.
Defined.

(** C1, as stated, fails: a C source entry that holds a continuation
    marker and a line break is rendered as two lines, and extraction
    reads two entries. *)
Lemma roundTrip_counterexample :
  ~ roundTrip ".stm32env" "STM32Make.make"
      (sampleInfo ["a.c " ++ BACKSLASH ++ LF ++ "b.c"]).
Proof.
  intros (H & _). specialize (H "a.c").
  assert (Hin : In "a.c"
                  (ExtractedMakefileInfo.cSources
                     (extractMakefileInfo
                        (createMakefile ".stm32env" "STM32Make.make"
                           (sampleInfo ["a.c " ++ BACKSLASH ++ LF ++ "b.c"])))))
    by (vm_compute; left; reflexivity).
  apply H in Hin. destruct Hin as [E | []]. discriminate E.
Qed.

(** The failure does not depend on how extraction is done: the two
    descriptions below have the same Makefile and different C sources. *)
Lemma createMakefile_same_text (envFile makefileName : string) :
  createMakefile envFile makefileName
    (sampleInfo ["a.c " ++ BACKSLASH ++ LF ++ "b.c"])
  = createMakefile envFile makefileName (sampleInfo ["a.c"; "b.c"]).
Proof. reflexivity. Qed.

Lemma no_extraction_recovers_sources (envFile makefileName : string)
    (extract : string -> list string) :
  ~ (sameMembers
       (extract (createMakefile envFile makefileName
                   (sampleInfo ["a.c " ++ BACKSLASH ++ LF ++ "b.c"])))
       ["a.c " ++ BACKSLASH ++ LF ++ "b.c"]
     /\ sameMembers
          (extract (createMakefile envFile makefileName
                      (sampleInfo ["a.c"; "b.c"])))
          ["a.c"; "b.c"]).
Proof.
  rewrite createMakefile_same_text. intros [H1 H2].
  assert (Hin : In "a.c" ["a.c " ++ BACKSLASH ++ LF ++ "b.c"]).
  { apply H1, H2. now left. }
  destruct Hin as [E | []]. discriminate E.
Qed.

(** ** Examples *)

Example createStringList_example :
  createStringList ["b.c"; "a.c"; "b.c"] (Some "-I")
  = "-Ia.c " ++ BACKSLASH ++ LF ++ "-Ib.c" ++ LF.
Proof. reflexivity. Qed.

Example createSingleLineStringList_example :
  createSingleLineStringList ["-Wall"; "-O2"; "-Wall"] None = "-O2 -Wall ".
Proof. reflexivity. Qed.

Example createPrefixWhenNoneExists_example :
  createPrefixWhenNoneExists (Some "cortex-m7") "-mcpu=" = "-mcpu=cortex-m7"
  /\ createPrefixWhenNoneExists (Some "-mcpu=cortex-m7") "-mcpu="
     = "-mcpu=cortex-m7".
Proof. split; reflexivity. Qed.

Example customMakefileRules_example :
  customMakefileRules
    (MakeInfo.mk "" "" [] [] [] [] [] [] [] "" "" "" [] [] [] "" [] [] [] ""
       (ToolChain.mk JsUndefined)
       (Some [CustomRule.mk "size" "$(SZ) $(ELF_TARGET)" None]))
  = LF ++ LF ++ LF
    ++ "#######################################" ++ LF
    ++ "# size" ++ LF
    ++ "#######################################" ++ LF
    ++ "size: " ++ LF
    ++ TAB ++ "$(SZ) $(ELF_TARGET)" ++ LF
    ++ TAB ++ TAB ++ TAB.
Proof. reflexivity. Qed.

Example extension_example :
  extension "Src/main.C" = "c"
  /\ extension "Drivers/lib.v2/libfoo.a" = "a"
  /\ extension "startup_stm32h743xx.s" = "s"
  /\ extension "Makefile" = "makefile".
Proof. repeat split; reflexivity. Qed.

(** The unit test of [extractlibraries]. *)
Example extractlibraries_example :
  extractlibraries
    ("libraries = -llib -lotherlib -lsomeotherotherLib -lstdc++" ++ LF)
  = ["-llib"; "-lotherlib"; "-lsomeotherotherLib"; "-lstdc++"].
Proof. reflexivity. Qed.

Example extractMultiLineInfo_example :
  extractMultiLineInfo "C_DEFS"
    (String.concat LF
       ["# C defines";
        "C_DEFS =  " ++ BACKSLASH;
        "-DUSE_HAL_DRIVER " ++ BACKSLASH;
        "-DSTM32H743xx";
        "";
        "# AS includes"])
  = ["-DUSE_HAL_DRIVER"; "-DSTM32H743xx"].
Proof. reflexivity. Qed.

(** * Further properties of the generator *)

(** ** The single-line formatter *)

Lemma fold_singleLineStep_spacedEntries (prefix : option string)
    (entries : list string) :
  forall output,
    fold_left (singleLineStep prefix) entries output
    = output ++ spacedEntries (prefixText prefix) entries.
Proof.
  induction entries as [|e entries IH]; intros output.
  - simpl. now rewrite append_empty_r.
  - cbn [fold_left spacedEntries]. rewrite IH.
    unfold singleLineStep. rewrite appendPrefix_text.
    now rewrite !append_assoc.
Qed.

(** X1: [createSingleLineStringList] writes the deduplicated entries in
    ascending order on one line, each as the prefix, the entry and one
    space; without entries the text is empty. *)
Theorem createSingleLineStringList_spec (arr : list string)
    (prefix : option string) :
  (exists entries,
      NoDup entries
      /\ (forall x, In x entries <-> In x arr)
      /\ ascending entries
      /\ createSingleLineStringList arr prefix
         = spacedEntries (prefixText prefix) entries)
  /\ createSingleLineStringList [] prefix = "".
Proof.
  split; [|reflexivity].
  exists (Js.sort (Js.uniq arr)).
  repeat split; try apply sort_uniq_In.
  - apply sort_uniq_NoDup.
  - apply sort_uniq_ascending.
  - unfold createSingleLineStringList.
    now rewrite fold_singleLineStep_spacedEntries.
Qed.

(** ** The rendered list determines its entries *)

Lemma append_cancel_l (p a b : string) : p ++ a = p ++ b -> a = b.
Proof.
  induction p as [|c p IH]; simpl; [auto|]. intros [= H]. auto.
Qed.

Lemma append_cancel_r (a b c : string) : a ++ c = b ++ c -> a = b.
Proof.
  revert b; induction a as [|x a IH]; intros [|y b] H.
  - reflexivity.
  - exfalso. apply (f_equal String.length) in H.
    simpl in H. rewrite length_append in H. lia.
  - exfalso. apply (f_equal String.length) in H.
    simpl in H. rewrite length_append in H. lia.
  - simpl in H. injection H as -> H. f_equal. now apply IH.
Qed.

(** Two texts that agree start with the same first line. *)
Lemma first_line_unique (a b x y : string) :
  singleLine a = true -> singleLine b = true ->
  a ++ LF ++ x = b ++ LF ++ y -> a = b /\ x = y.
Proof.
  unfold singleLine.
  revert b; induction a as [|c a IH]; intros [|d b] Ha Hb H.
  - simpl in H. injection H as H. auto.
  - simpl in H, Hb. injection H as <- _.
    apply andb_true_iff in Hb as [Hb _]. discriminate.
  - simpl in H, Ha. injection H as -> _.
    apply andb_true_iff in Ha as [Ha _]. discriminate.
  - simpl in H, Ha, Hb. injection H as -> H.
    apply andb_true_iff in Ha as [_ Ha].
    apply andb_true_iff in Hb as [_ Hb].
    destruct (IH b Ha Hb H) as [-> ->]. auto.
Qed.

Lemma continuedLines_nonempty (p x : string) (rest : list string) :
  continuedLines p (x :: rest) <> "".
Proof.
  intros H. apply (f_equal String.length) in H.
  destruct rest; cbn [continuedLines] in H;
    rewrite !length_append in H; simpl in H; lia.
Qed.

Lemma continuedLines_cons (p x : string) (rest : list string) :
  continuedLines p (x :: rest)
  = p ++ (x ++ match rest with [] => "" | _ => " " ++ BACKSLASH end)
      ++ LF ++ continuedLines p rest.
Proof.
  destruct rest as [|y rest]; cbn [continuedLines].
  - now rewrite !append_empty_r.
  - now rewrite !append_assoc.
Qed.

Lemma continuedLines_injective (p : string) (l1 : list string) :
  forall l2,
    forallb singleLine l1 = true -> forallb singleLine l2 = true ->
    continuedLines p l1 = continuedLines p l2 -> l1 = l2.
Proof.
  induction l1 as [|x l1 IH]; intros [|y l2] H1 H2 H.
  - reflexivity.
  - symmetry in H. now apply continuedLines_nonempty in H.
  - now apply continuedLines_nonempty in H.
  - cbn [forallb] in H1, H2.
    apply andb_true_iff in H1 as [Hx H1].
    apply andb_true_iff in H2 as [Hy H2].
    rewrite !continuedLines_cons in H. apply append_cancel_l in H.
    rewrite !append_assoc in H.
    assert (Hm : forall (e : string) (r : list string),
               singleLine e = true ->
               singleLine
                 (e ++ match r with [] => "" | _ => " " ++ BACKSLASH end)
               = true).
    { intros e r He. rewrite singleLine_append, He. now destruct r. }
    rewrite <- !append_assoc in H.
    rewrite !(append_assoc _ LF) in H.
    apply first_line_unique in H as [Hl Hr]; [| now apply Hm ..].
    assert (E : l1 = l2) by now apply IH.
    subst l2. f_equal.
    destruct l1; [now rewrite !append_empty_r in Hl|].
    now apply append_cancel_r in Hl.
Qed.

(** X2: when no entry holds a line break, two lists are rendered alike
    by [createStringList] exactly when they have the same members: the
    text determines the set of entries. *)
Theorem createStringList_determines_members (l1 l2 : list string)
    (prefix : option string) :
  forallb singleLine l1 = true ->
  forallb singleLine l2 = true ->
  (createStringList l1 prefix = createStringList l2 prefix
   <-> sameMembers l1 l2).
Proof.
  intros H1 H2. split.
  - rewrite !createStringList_continuedLines. intros H.
    apply continuedLines_injective in H;
      [| now apply forallb_sort_uniq ..].
    intros x. rewrite <- (sort_uniq_In l1), <- (sort_uniq_In l2).
    now rewrite H.
  - intros H. unfold createStringList.
    now rewrite (sort_uniq_members l1 l2 H).
Qed.

Lemma createStringList_determines_members_witness :
  forallb singleLine ["b.c"; "a.c"] = true
  /\ forallb singleLine ["a.c"; "b.c"; "a.c"] = true
  /\ (createStringList ["b.c"; "a.c"] None
      = createStringList ["a.c"; "b.c"; "a.c"] None
      <-> sameMembers ["b.c"; "a.c"] ["a.c"; "b.c"; "a.c"]).
Proof.
  split; [reflexivity|]. split; [reflexivity|].
  apply createStringList_determines_members; reflexivity.
Defined.

(** ** Conditional prefixing keeps the token *)

(** X3: for a token that is not empty, the result of
    [createPrefixWhenNoneExists] contains the prefix and ends with the
    token as given; nothing but the prefix is ever put in front. *)
Theorem createPrefixWhenNoneExists_contains (x prefix : string) :
  x <> "" ->
  occursIn prefix (createPrefixWhenNoneExists (Some x) prefix)
  /\ (createPrefixWhenNoneExists (Some x) prefix = x
      \/ createPrefixWhenNoneExists (Some x) prefix = prefix ++ x).
Proof.
  intros Hx. rewrite createPrefixWhenNoneExists_cases.
  destruct (String.eqb_spec x ""); [contradiction|].
  destruct (0 <=? Js.indexOf x prefix)%Z eqn:E.
  - split; [now apply indexOf_occurs | now left].
  - split; [now exists "", x | now right].
Qed.

Lemma createPrefixWhenNoneExists_contains_witness :
  "hard" <> ""
  /\ occursIn "-mfloat-abi="
       (createPrefixWhenNoneExists (Some "hard") "-mfloat-abi=").
Proof.
  assert (H : "hard" <> "") by discriminate.
  split; [exact H|].
  exact (proj1 (createPrefixWhenNoneExists_contains "hard" "-mfloat-abi=" H)).
Defined.

(** ** Custom rules are rendered one after the other *)

Lemma customRuleStep_append (previousString : string) (r : CustomRule.t) :
  customRuleStep previousString r = previousString ++ ruleBlock r.
Proof. reflexivity. Qed.

Lemma fold_customRuleStep (rules : list CustomRule.t) :
  forall output,
    fold_left customRuleStep rules output
    = output ++ fold_left customRuleStep rules "".
Proof.
  induction rules as [|r rules IH]; intros output.
  - simpl. now rewrite append_empty_r.
  - cbn [fold_left]. rewrite IH, (IH (customRuleStep "" r)).
    rewrite (customRuleStep_append output), append_assoc.
    reflexivity.
Qed.

(** X4: the text of a list of custom rules is the text of its first
    part followed by the text of the rest: every rule gives one block,
    in the order of the list, whatever stands before it. *)
Theorem customMakefileRules_app (m m1 m2 : MakeInfo.t)
    (rules1 rules2 : list CustomRule.t) :
  MakeInfo.customMakefileRules m1 = Some rules1 ->
  MakeInfo.customMakefileRules m2 = Some rules2 ->
  MakeInfo.customMakefileRules m = Some (rules1 ++ rules2)%list ->
  customMakefileRules m = customMakefileRules m1 ++ customMakefileRules m2.
Proof.
  unfold customMakefileRules. intros -> -> ->.
  rewrite fold_left_app. apply fold_customRuleStep.
Qed.

Lemma customMakefileRules_app_witness :
  let size := CustomRule.mk "size" "$(SZ) $(ELF_TARGET)" None in
  let debug := CustomRule.mk "debug" "$(OPENOCD) -f ./openocd.cfg"
                 (Some "$(ELF_TARGET)") in
  let tools := ToolChain.mk (JsBoolean false) in
  MakeInfo.customMakefileRules (sampleWith [] tools (Some [size]))
  = Some [size]
  /\ MakeInfo.customMakefileRules (sampleWith [] tools (Some [debug]))
     = Some [debug]
  /\ MakeInfo.customMakefileRules (sampleWith [] tools (Some [size; debug]))
     = Some ([size] ++ [debug])%list
  /\ customMakefileRules (sampleWith [] tools (Some [size; debug]))
     = customMakefileRules (sampleWith [] tools (Some [size]))
       ++ customMakefileRules (sampleWith [] tools (Some [debug])).
Proof.
  intros size debug tools.
  split; [reflexivity|]. split; [reflexivity|]. split; [reflexivity|].
  apply (customMakefileRules_app _ _ _ [size] [debug]); reflexivity.
Defined.

(** ** The Makefile depends on the sets, not on the lists *)

Lemma createStringList_members (l1 l2 : list string)
    (prefix : option string) :
  sameMembers l1 l2 -> createStringList l1 prefix = createStringList l2 prefix.
Proof.
  intros H. unfold createStringList. now rewrite (sort_uniq_members l1 l2 H).
Qed.

Lemma createSingleLineStringList_members (l1 l2 : list string)
    (prefix : option string) :
  sameMembers l1 l2 ->
  createSingleLineStringList l1 prefix = createSingleLineStringList l2 prefix.
Proof.
  intros H. unfold createSingleLineStringList.
  now rewrite (sort_uniq_members l1 l2 H).
Qed.

(** X5: the Makefile text is the same for two descriptions that agree
    on the text fields and the custom rules and whose source, include,
    definition, library and flag lists have the same members: neither
    the order nor the repetition of list entries (extra flags included)
    nor the tool locations reach the text. *)
Theorem createMakefile_sameDescription (envFile makefileName : string)
    (m1 m2 : MakeInfo.t) :
  sameDescription m1 m2 ->
  createMakefile envFile makefileName m1
  = createMakefile envFile makefileName m2.
Proof.
  intros (Ht & Ho & Hc & Hf & Ha & Hl & Hm & Hr & D1 & D2 & D3 & S1 & S2
          & S3 & I & F1 & F2 & F3 & L1 & L2 & L3).
  unfold createMakefile, createMakefileLines, customMakefileRules.
  rewrite Ht, Ho, Hc, Hf, Ha, Hl, Hm, Hr.
  rewrite (createStringList_members _ _ (Some "-D") D1),
    (createStringList_members _ _ (Some "-D") D2),
    (createStringList_members _ _ (Some "-D") D3),
    (createStringList_members _ _ None S1),
    (createStringList_members _ _ None S2),
    (createStringList_members _ _ None S3),
    (createStringList_members _ _ (Some "-I") I),
    (createStringList_members _ _ (Some "-l") L1),
    (createStringList_members _ _ (Some "-L") L2),
    (createSingleLineStringList_members _ _ None F1),
    (createSingleLineStringList_members _ _ None F2),
    (createSingleLineStringList_members _ _ None F3),
    (createSingleLineStringList_members _ _ None L3).
  reflexivity.
Qed.

Lemma createMakefile_sameDescription_witness :
  let m1 :=
    sampleWith ["-Wl,--start-group"; "-lfoo"; "-Wl,--end-group"]
      (ToolChain.mk (JsString "/opt/gcc-arm/bin")) None in
  let m2 :=
    sampleWith ["-lfoo"; "-Wl,--end-group"; "-Wl,--start-group"; "-lfoo"]
      (ToolChain.mk (JsBoolean false)) None in
  sameDescription m1 m2
  /\ createMakefile ".stm32env" "STM32Make.make" m1
     = createMakefile ".stm32env" "STM32Make.make" m2.
Proof.
  intros m1 m2.
  assert (H : sameDescription m1 m2).
  { unfold sameDescription, sameMembers; repeat split; try reflexivity;
      unfold m1, m2; cbn; tauto. }
  split; [exact H|].
  exact (createMakefile_sameDescription _ _ m1 m2 H).
Defined.

(** ** Every entry reaches the Makefile *)

Lemma occursIn_append_l (x a b : string) : occursIn x a -> occursIn x (a ++ b).
Proof.
  intros (u & v & ->). exists u, (v ++ b). now rewrite !append_assoc.
Qed.

Lemma occursIn_append_r (x a b : string) : occursIn x b -> occursIn x (a ++ b).
Proof.
  intros (u & v & ->). exists (a ++ u), v. now rewrite !append_assoc.
Qed.

Lemma continuedLines_occurs (p e : string) (entries : list string) :
  In e entries -> occursIn (p ++ e) (continuedLines p entries).
Proof.
  induction entries as [|x entries IH]; [contradiction|].
  rewrite continuedLines_cons. intros [-> | H].
  - exists "",
      (match entries with [] => "" | _ => " " ++ BACKSLASH end
       ++ LF ++ continuedLines p entries).
    now rewrite !append_assoc.
  - do 3 apply occursIn_append_r. now apply IH.
Qed.

Lemma spacedEntries_occurs (p e : string) (entries : list string) :
  In e entries -> occursIn (p ++ e) (spacedEntries p entries).
Proof.
  induction entries as [|x entries IH]; [contradiction|].
  cbn [spacedEntries]. intros [-> | H].
  - exists "", (" " ++ spacedEntries p entries). now rewrite !append_assoc.
  - do 3 apply occursIn_append_r. now apply IH.
Qed.

Lemma createStringList_occurs (arr : list string) (prefix : option string)
    (e : string) :
  In e arr -> occursIn (prefixText prefix ++ e) (createStringList arr prefix).
Proof.
  intros H. rewrite createStringList_continuedLines.
  now apply continuedLines_occurs, sort_uniq_In.
Qed.

Lemma createSingleLineStringList_occurs (arr : list string) (e : string) :
  In e arr -> occursIn e (createSingleLineStringList arr None).
Proof.
  intros H. unfold createSingleLineStringList.
  rewrite fold_singleLineStep_spacedEntries.
  apply (spacedEntries_occurs "" e), sort_uniq_In, H.
Qed.

Lemma template_line_occurs (envFile makefileName : string) (m : MakeInfo.t)
    (k : nat) (line x : string) :
  nth_error (createMakefileLines envFile makefileName m) k = Some line ->
  occursIn x line ->
  occursIn x (createMakefile envFile makefileName m).
Proof.
  intros Hk Hx. eapply occursIn_trans; [exact Hx|].
  apply concat_In_occurs. eapply nth_error_In. exact Hk.
Qed.

(** X6: every entry of the source, include, definition, library and
    flag lists of a description occurs in the generated Makefile, the
    entries of the flagged groups behind their flag ([-D], [-I], [-l],
    [-L]): the generator drops nothing. *)
Theorem createMakefile_lists_entries (envFile makefileName : string)
    (m : MakeInfo.t) :
  let text := createMakefile envFile makefileName m in
  listedIn text "-D" (MakeInfo.cDefs m)
  /\ listedIn text "-D" (MakeInfo.cxxDefs m)
  /\ listedIn text "-D" (MakeInfo.asDefs m)
  /\ listedIn text "" (MakeInfo.cSources m)
  /\ listedIn text "" (MakeInfo.cxxSources m)
  /\ listedIn text "" (MakeInfo.asmSources m)
  /\ listedIn text "-I" (MakeInfo.cIncludes m)
  /\ listedIn text "-l" (MakeInfo.libs m)
  /\ listedIn text "-L" (MakeInfo.libdir m)
  /\ listedIn text "" (MakeInfo.cFlags m)
  /\ listedIn text "" (MakeInfo.cxxFlags m)
  /\ listedIn text "" (MakeInfo.assemblyFlags m)
  /\ listedIn text "" (MakeInfo.ldFlags m).
Proof.
  cbv zeta. unfold listedIn.
  repeat split; intros e He.
  - apply (template_line_occurs _ _ _ 83 _ _ eq_refl),
      (createStringList_occurs _ (Some "-D")), He.
  - apply (template_line_occurs _ _ _ 87 _ _ eq_refl),
      (createStringList_occurs _ (Some "-D")), He.
  - apply (template_line_occurs _ _ _ 91 _ _ eq_refl),
      (createStringList_occurs _ (Some "-D")), He.
  - apply (template_line_occurs _ _ _ 100 _ _ eq_refl),
      (createStringList_occurs _ None), He.
  - apply (template_line_occurs _ _ _ 103 _ _ eq_refl),
      (createStringList_occurs _ None), He.
  - apply (template_line_occurs _ _ _ 107 _ _ eq_refl),
      (createStringList_occurs _ None), He.
  - apply (template_line_occurs _ _ _ 118 _ _ eq_refl),
      (createStringList_occurs _ (Some "-I")), He.
  - apply (template_line_occurs _ _ _ 190 _ _ eq_refl),
      (createStringList_occurs _ (Some "-l")), He.
  - apply (template_line_occurs _ _ _ 194 _ _ eq_refl),
      (createStringList_occurs _ (Some "-L")), He.
  - apply (template_line_occurs _ _ _ 146 _ _ eq_refl), occursIn_append_r,
      createSingleLineStringList_occurs, He.
  - apply (template_line_occurs _ _ _ 147 _ _ eq_refl), occursIn_append_r,
      createSingleLineStringList_occurs, He.
  - apply (template_line_occurs _ _ _ 148 _ _ eq_refl), occursIn_append_r,
      createSingleLineStringList_occurs, He.
  - apply (template_line_occurs _ _ _ 198 _ _ eq_refl), occursIn_append_r,
      createSingleLineStringList_occurs, He.
Qed.

Lemma createMakefile_lists_entries_witness :
  let m := sampleWith ["-Wall"] (ToolChain.mk (JsBoolean false)) None in
  In "USE_HAL_DRIVER" (MakeInfo.cDefs m)
  /\ occursIn "-DUSE_HAL_DRIVER"
       (createMakefile ".stm32env" "STM32Make.make" m).
Proof.
  intros m. split; [now left|].
  destruct (createMakefile_lists_entries ".stm32env" "STM32Make.make" m)
    as (H & _).
  apply H. now left.
Defined.


(** ** Where the custom rules go *)

(** X14: the text of the custom rules is spliced into the Makefile as
    it is, behind the header of the custom-rules section and in front of
    the dependencies section that ends the file. *)
Theorem createMakefile_custom_rules_spliced (envFile makefileName : string)
    (m : MakeInfo.t) :
  exists before,
    createMakefile envFile makefileName m
    = before ++ LF ++ customRulesHeader ++ LF ++ customMakefileRules m
      ++ LF ++ dependenciesSection.
Proof.
  exists (String.concat LF
            (firstn 385 (createMakefileLines envFile makefileName m))).
  unfold createMakefile.
  rewrite <- (firstn_skipn 385
                (createMakefileLines envFile makefileName m)) at 1.
  rewrite concat_app.
  - do 2 apply f_equal. reflexivity.
  - unfold createMakefileLines. cbn [firstn]. discriminate.
  - unfold createMakefileLines. cbn [skipn]. discriminate.
Qed.

(** * Properties of the project-file scanner *)

(** ** Include directories *)

Lemma fold_push_map (f : string -> string) (l : list string) :
  forall acc,
    fold_left (fun incList entry => (incList ++ [f entry])%list) l acc
    = (acc ++ map f l)%list.
Proof.
  induction l as [|x l IH]; intros acc; cbn [fold_left map].
  - now rewrite app_nil_r.
  - now rewrite IH, <- app_assoc.
Qed.

Lemma getIncludeDirectoriesFromFileList_sort_uniq
    (dirname : string -> string) (headerList : list string) :
  getIncludeDirectoriesFromFileList dirname headerList
  = Js.sort (Js.uniq (map dirname headerList)).
Proof.
  unfold getIncludeDirectoriesFromFileList.
  rewrite fold_push_map. cbn [app]. now rewrite map_id.
Qed.

(** X7: [getIncludeDirectoriesFromFileList] gives the directories of
    the headers, each one once, in ascending order; without headers it
    gives the empty list. *)
Theorem getIncludeDirectoriesFromFileList_spec
    (dirname : string -> string) (headerList : list string) :
  let incList := getIncludeDirectoriesFromFileList dirname headerList in
  NoDup incList
  /\ ascending incList
  /\ (forall d, In d incList <-> exists h, In h headerList /\ dirname h = d)
  /\ getIncludeDirectoriesFromFileList dirname [] = [].
Proof.
  cbv zeta. rewrite getIncludeDirectoriesFromFileList_sort_uniq.
  split; [apply sort_uniq_NoDup|]. split; [apply sort_uniq_ascending|].
  split; [|reflexivity].
  intros d. rewrite sort_uniq_In, in_map_iff.
  split; intros (h & A & B); exists h; auto.
Qed.

(** ** Looking a name up without regard to case *)

Lemma findIndex_from_cases (predicate : string -> bool) (l : list string) :
  forall i,
    (Lodash.findIndex_from i l predicate = (-1)%Z
     /\ Forall (fun x => predicate x = false) l)
    \/ (exists before x after,
           l = (before ++ x :: after)%list
           /\ Forall (fun y => predicate y = false) before
           /\ predicate x = true
           /\ Lodash.findIndex_from i l predicate
              = (i + Z.of_nat (List.length before))%Z).
Proof.
  induction l as [|x l IH]; intros i; cbn [Lodash.findIndex_from].
  - left. split; [reflexivity | constructor].
  - destruct (predicate x) eqn:E.
    + right. exists [], x, l. repeat split; [constructor | assumption|].
      simpl. lia.
    + destruct (IH (i + 1)%Z) as [[H F] | (before & y & after & -> & F & P & H)].
      * left. split; [assumption | now constructor].
      * right. exists (x :: before), y, after.
        repeat split; [now constructor | assumption|].
        rewrite H. cbn [List.length]. lia.
Qed.

Section DirCaseFree.

Variable basename : string -> string.
Variable lodashToLower : string -> string.

Lemma getDirCaseFree_cases (dirName : string) (directories : list string) :
  match getDirCaseFree basename lodashToLower dirName directories with
  | Some d =>
      exists before after,
        directories = (before ++ d :: after)%list
        /\ basename (lodashToLower d) = lodashToLower dirName
        /\ Forall (fun o => basename (lodashToLower o)
                            <> lodashToLower dirName) before
  | None =>
      Forall (fun o => basename (lodashToLower o) <> lodashToLower dirName)
        directories
  end.
Proof.
  unfold getDirCaseFree, Lodash.findIndex.
  set (predicate := fun o => basename (lodashToLower o) =? lodashToLower dirName).
  assert (Hneg : forall l, Forall (fun x => predicate x = false) l ->
            Forall (fun o => basename (lodashToLower o)
                             <> lodashToLower dirName) l).
  { intros l. apply Forall_impl. intros o Ho. now apply String.eqb_neq. }
  destruct (findIndex_from_cases predicate directories 0)
    as [[-> F] | (before & x & after & -> & F & P & ->)].
  - cbn. now apply Hneg.
  - replace (0 + Z.of_nat (List.length before) =? -1)%Z with false
      by (symmetry; apply Z.eqb_neq; lia).
    rewrite Z.add_0_l, Nat2Z.id.
    rewrite nth_error_app2, Nat.sub_diag by lia. cbn [nth_error].
    exists before, after. repeat split; [|now apply Hneg].
    now apply String.eqb_eq.
Qed.

Lemma getDirCaseFree_found (dirName : string) (directories : list string) :
  (exists d, getDirCaseFree basename lodashToLower dirName directories = Some d)
  <-> exists o, In o directories
                /\ basename (lodashToLower o) = lodashToLower dirName.
Proof.
  pose proof (getDirCaseFree_cases dirName directories) as H.
  destruct (getDirCaseFree basename lodashToLower dirName directories) as [d|].
  - destruct H as (before & after & -> & Hm & _). split; intros _.
    + exists d. split; [apply in_elt | assumption].
    + now exists d.
  - rewrite Forall_forall in H. split.
    + intros [d Hd]. discriminate.
    + intros (o & Ho & Hm). now elim (H o Ho).
Qed.

End DirCaseFree.

(** X8: [getDirCaseFree] returns the first entry of the list whose
    lower-cased base name equals the lower-cased name asked for, spelled
    as in the list, and null exactly when no entry does. *)
Theorem getDirCaseFree_first_match (basename lodashToLower : string -> string)
    (dirName : string) (directories : list string) :
  match getDirCaseFree basename lodashToLower dirName directories with
  | Some d =>
      exists before after,
        directories = (before ++ d :: after)%list
        /\ basename (lodashToLower d) = lodashToLower dirName
        /\ Forall (fun o => basename (lodashToLower o)
                            <> lodashToLower dirName) before
  | None =>
      Forall (fun o => basename (lodashToLower o) <> lodashToLower dirName)
        directories
  end.
Proof. apply getDirCaseFree_cases. Qed.

(** X9: [checkForRequiredFiles] reports on the Makefile and on the
    configuration file, in this order, and marks each as present exactly
    when some entry of the listing has its name as base name, letter
    case aside. *)
Theorem checkForRequiredFiles_spec (basename lodashToLower : string -> string)
    (EXTENSION_CONFIG_NAME : string) (directoryFiles : list string) :
  exists makefilePresent configPresent,
    checkForRequiredFiles basename lodashToLower EXTENSION_CONFIG_NAME
      directoryFiles
    = [RequiredFile.mk "Makefile" makefilePresent;
       RequiredFile.mk EXTENSION_CONFIG_NAME configPresent]
    /\ (makefilePresent = true
        <-> exists o, In o directoryFiles
                      /\ basename (lodashToLower o) = lodashToLower "Makefile")
    /\ (configPresent = true
        <-> exists o, In o directoryFiles
                      /\ basename (lodashToLower o)
                         = lodashToLower EXTENSION_CONFIG_NAME).
Proof.
  assert (H : forall name,
            match getDirCaseFree basename lodashToLower name directoryFiles
            with None => false | Some _ => true end = true
            <-> exists o, In o directoryFiles
                          /\ basename (lodashToLower o) = lodashToLower name).
  { intros name.
    rewrite <- (getDirCaseFree_found basename lodashToLower name directoryFiles).
    destruct (getDirCaseFree basename lodashToLower name directoryFiles) as [d|].
    - split; [now exists d | reflexivity].
    - split; [discriminate | now intros [d Hd]]. }
  eexists _, _. split; [reflexivity|]. split; apply H.
Qed.

(** ** The scan filters and the buckets *)

Lemma hasExtensionOf_In (extensions : list string) (file : string) :
  hasExtensionOf extensions file = true
  <-> In (List.last (split "."%char file) EmptyString) extensions.
Proof.
  unfold hasExtensionOf, Lodash.intersection.
  set (extension := List.last (split "."%char file) EmptyString).
  change (Js.uniq [extension]) with [extension]. cbn [filter].
  rewrite <- existsb_eqb_In.
  destruct (existsb (String.eqb extension) extensions); cbn; split;
    (reflexivity || discriminate).
Qed.

Lemma sourceFile_extension (file : string) :
  hasExtensionOf sourceFileExtensions file = true ->
  extension file = "cpp" \/ extension file = "c" \/ extension file = "a"
  \/ extension file = "s" \/ extension file = "cxx" \/ extension file = "cc".
Proof.
  rewrite hasExtensionOf_In. unfold extension, sourceFileExtensions.
  intros [<- | [<- | [<- | [<- | [<- | [<- | []]]]]]]; cbn; tauto.
Qed.

Lemma headerFile_extension (file : string) :
  hasExtensionOf headerFileExtensions file = true ->
  extension file = "h" \/ extension file = "hpp" \/ extension file = "hxx".
Proof.
  rewrite hasExtensionOf_In. unfold extension, headerFileExtensions.
  intros [<- | [<- | [<- | []]]]; cbn; tauto.
Qed.

(** X10: every file that [getSourceFiles] keeps from a scan is taken
    up by [sortFiles]: it is in the C, C++ or assembly bucket, or its
    directory is in the library bucket. *)
Theorem getSourceFiles_all_bucketed (dirname : string -> string)
    (ScanError : Type) (scanResult : list string -> ScanError + list string)
    (sourceFileGlobs files : list string) :
  getSourceFiles ScanError scanResult sourceFileGlobs = inr files ->
  let output := sortFiles dirname files in
  forall file, In file files ->
    In file (JsArray.elements (BuildFiles.cSources output))
    \/ In file (JsArray.elements (BuildFiles.cxxSources output))
    \/ In file (JsArray.elements (BuildFiles.assemblySources output))
    \/ In (dirname file)
         (JsArray.elements (BuildFiles.libraryDirectories output)).
Proof.
  unfold getSourceFiles.
  destruct (scanResult sourceFileGlobs) as [error | scanned]; [discriminate|].
  intros [= <-] file Hin.
  destruct (sortFiles_elements dirname
              (filter (hasExtensionOf sourceFileExtensions) scanned))
    as (H1 & H2 & H3 & H4).
  cbv zeta in H1, H2, H3, H4. rewrite H1, H2, H3, H4.
  rewrite !sort_In.
  pose proof Hin as Hf. apply filter_In in Hf as [_ Hf].
  apply sourceFile_extension in Hf.
  destruct Hf as [E | [E | [E | [E | [E | E]]]]].
  - right; left. apply filter_In. split; [assumption|]. now rewrite E.
  - left. apply filter_In. split; [assumption|]. now rewrite E.
  - right; right; right. apply in_map, filter_In.
    split; [assumption|]. now rewrite E.
  - right; right; left. apply filter_In. split; [assumption|]. now rewrite E.
  - right; left. apply filter_In. split; [assumption|]. now rewrite E.
  - right; left. apply filter_In. split; [assumption|]. now rewrite E.
Qed.

Lemma getSourceFiles_all_bucketed_witness :
  let scanResult :=
    fun _ : list string =>
      @inr unit _ ["Src/main.c"; "README.md"; "Lib/libm.a"; "Src/MAIN.C"] in
  let output := sortFiles (fun _ => "Lib") ["Src/main.c"; "Lib/libm.a"] in
  getSourceFiles unit scanResult ["**/*"] = inr ["Src/main.c"; "Lib/libm.a"]
  /\ (In "Lib/libm.a" (JsArray.elements (BuildFiles.cSources output))
      \/ In "Lib/libm.a" (JsArray.elements (BuildFiles.cxxSources output))
      \/ In "Lib/libm.a"
           (JsArray.elements (BuildFiles.assemblySources output))
      \/ In "Lib"
           (JsArray.elements (BuildFiles.libraryDirectories output))).
Proof.
  intros scanResult output.
  assert (H : getSourceFiles unit scanResult ["**/*"]
              = inr ["Src/main.c"; "Lib/libm.a"]) by reflexivity.
  split; [exact H|].
  apply (getSourceFiles_all_bucketed (fun _ => "Lib") unit scanResult
           ["**/*"] _ H "Lib/libm.a").
  right. now left.
Defined.

Lemma filter_none (P : string -> bool) (l : list string) :
  (forall x, In x l -> P x = false) -> filter P l = [].
Proof.
  induction l as [|x l IH]; intros H; [reflexivity|].
  cbn [filter]. rewrite (H x (or_introl eq_refl)).
  apply IH. intros y Hy. apply H. now right.
Qed.

(** X11: the files that [getHeaderFiles] keeps from a scan are no
    source files for [getSourceFiles], and [sortFiles] puts none of them
    into a bucket. *)
Theorem getHeaderFiles_not_bucketed (dirname : string -> string)
    (ScanError : Type) (scanResult : list string -> ScanError + list string)
    (headerFilesGlobs files : list string) :
  getHeaderFiles ScanError scanResult headerFilesGlobs = inr files ->
  let output := sortFiles dirname files in
  Forall (fun file => hasExtensionOf sourceFileExtensions file = false) files
  /\ JsArray.elements (BuildFiles.cSources output) = []
  /\ JsArray.elements (BuildFiles.cxxSources output) = []
  /\ JsArray.elements (BuildFiles.assemblySources output) = []
  /\ JsArray.elements (BuildFiles.libraryDirectories output) = [].
Proof.
  unfold getHeaderFiles.
  destruct (scanResult headerFilesGlobs) as [error | scanned]; [discriminate|].
  intros [= <-].
  assert (Hh : forall file,
             In file (filter (hasExtensionOf headerFileExtensions) scanned) ->
             extension file = "h" \/ extension file = "hpp"
             \/ extension file = "hxx").
  { intros file Hf. apply filter_In in Hf as [_ Hf].
    now apply headerFile_extension. }
  split.
  - apply Forall_forall. intros file Hf.
    destruct (hasExtensionOf sourceFileExtensions file) eqn:E; [|reflexivity].
    exfalso. apply sourceFile_extension in E. apply Hh in Hf.
    destruct Hf as [H | [H | H]]; rewrite H in E;
      intuition discriminate.
  - destruct (sortFiles_elements dirname
                (filter (hasExtensionOf headerFileExtensions) scanned))
      as (H1 & H2 & H3 & H4).
    cbv zeta in H1, H2, H3, H4. rewrite H1, H2, H3, H4.
    rewrite !filter_none; [repeat split | ..];
      intros file Hf; apply Hh in Hf;
      destruct Hf as [H | [H | H]]; now rewrite H.
Qed.

Lemma getHeaderFiles_not_bucketed_witness :
  let scanResult :=
    fun _ : list string =>
      @inr unit _ ["Inc/main.h"; "Src/main.c"; "Inc/util.hxx"] in
  getHeaderFiles unit scanResult ["**/*"] = inr ["Inc/main.h"; "Inc/util.hxx"]
  /\ JsArray.elements
       (BuildFiles.cSources
          (sortFiles (fun _ => "Inc") ["Inc/main.h"; "Inc/util.hxx"]))
     = [].
Proof.
  intros scanResult.
  assert (H : getHeaderFiles unit scanResult ["**/*"]
              = inr ["Inc/main.h"; "Inc/util.hxx"]) by reflexivity.
  split; [exact H|].
  exact (proj1 (proj2 (getHeaderFiles_not_bucketed (fun _ => "Inc") unit
                         scanResult ["**/*"] _ H))).
Defined.

(** ** The buckets do not depend on the order of the scan *)

Lemma filter_Permutation (P : string -> bool) (l1 l2 : list string) :
  Permutation l1 l2 -> Permutation (filter P l1) (filter P l2).
Proof.
  induction 1 as [|x l1 l2 _ IH|x y l|l1 l2 l3 _ IH1 _ IH2]; cbn [filter].
  - constructor.
  - destruct (P x); [now constructor | assumption].
  - destruct (P x), (P y); try reflexivity. apply perm_swap.
  - now transitivity (filter P l2).
Qed.

(** X12: the elements of the four buckets of [sortFiles] are the same
    for two listings that are permutations of each other. *)
Theorem sortFiles_order_independent (dirname : string -> string)
    (l1 l2 : list string) :
  Permutation l1 l2 ->
  JsArray.elements (BuildFiles.cSources (sortFiles dirname l1))
  = JsArray.elements (BuildFiles.cSources (sortFiles dirname l2))
  /\ JsArray.elements (BuildFiles.cxxSources (sortFiles dirname l1))
     = JsArray.elements (BuildFiles.cxxSources (sortFiles dirname l2))
  /\ JsArray.elements (BuildFiles.assemblySources (sortFiles dirname l1))
     = JsArray.elements (BuildFiles.assemblySources (sortFiles dirname l2))
  /\ JsArray.elements (BuildFiles.libraryDirectories (sortFiles dirname l1))
     = JsArray.elements
         (BuildFiles.libraryDirectories (sortFiles dirname l2)).
Proof.
  intros P.
  destruct (sortFiles_elements dirname l1) as (A1 & A2 & A3 & A4).
  destruct (sortFiles_elements dirname l2) as (B1 & B2 & B3 & B4).
  cbv zeta in *. rewrite A1, A2, A3, A4, B1, B2, B3, B4.
  repeat split; apply sort_Permutation_eq;
    try apply Permutation_map; now apply filter_Permutation.
Qed.

Lemma sortFiles_order_independent_witness :
  Permutation ["b.c"; "a.c"; "x.s"] ["x.s"; "b.c"; "a.c"]
  /\ JsArray.elements
       (BuildFiles.cSources (sortFiles (fun s => s) ["b.c"; "a.c"; "x.s"]))
     = JsArray.elements
         (BuildFiles.cSources (sortFiles (fun s => s) ["x.s"; "b.c"; "a.c"])).
Proof.
  assert (P : Permutation ["b.c"; "a.c"; "x.s"] ["x.s"; "b.c"; "a.c"]).
  { apply Permutation_sym, (Permutation_cons_app ["b.c"; "a.c"] []).
    now rewrite app_nil_r. }
  split; [exact P|].
  exact (proj1 (sortFiles_order_independent (fun s => s) _ _ P)).
Defined.

(** * The OpenOCD configuration file *)

Lemma create_shape (config : OpenOCDConfig.t) :
  OpenOCDConfig.create config
  = String.concat LF
      ["#OpenOCD configuration file, generated by STM32 for VSCode";
       "";
       "# Programmer, can be changed to several interfaces";
       "# Standard will be the stlink interface as this is the standard for STM32 dev boards";
       "source [find interface/"]
    ++ (OpenOCDConfig.interface config ++ ".cfg]") ++ LF
    ++ String.concat LF
         [""; "# The target MCU. This should match your board";
          "source [find target/"]
    ++ OpenOCDConfig.openocdTarget config ++ ".cfg]" ++ LF.
Proof.
  unfold OpenOCDConfig.create. cbn [String.concat].
  rewrite !append_assoc. reflexivity.
Qed.

(** X13: when the interface names hold no line break, two
    configurations with the same OpenOCD file are the same: the file
    determines the programmer interface and the target. *)
Theorem create_injective (c1 c2 : OpenOCDConfig.t) :
  singleLine (OpenOCDConfig.interface c1) = true ->
  singleLine (OpenOCDConfig.interface c2) = true ->
  OpenOCDConfig.create c1 = OpenOCDConfig.create c2 ->
  c1 = c2.
Proof.
  intros H1 H2 H. rewrite !create_shape in H.
  apply append_cancel_l in H.
  rewrite !append_assoc in H.
  rewrite <- !(append_assoc (OpenOCDConfig.interface _) ".cfg]") in H.
  apply first_line_unique in H as [Hi Ht];
    [| now rewrite singleLine_append, ?H1, ?H2 ..].
  apply append_cancel_r in Hi. apply append_cancel_l in Ht.
  apply append_cancel_r in Ht.
  destruct c1, c2. cbn in Hi, Ht. now subst.
Qed.

Lemma create_injective_witness :
  let c := OpenOCDConfig.mk "stlink" "stm32h7x" in
  singleLine (OpenOCDConfig.interface c) = true
  /\ OpenOCDConfig.create c = OpenOCDConfig.create c
  /\ c = c.
Proof.
  intros c. split; [reflexivity|]. split; [reflexivity|].
  apply create_injective; reflexivity.
Defined.

(** ** The order of [sort()] on text outside ASCII *)

(** Where the code units of two strings differ, they alone decide the
    order. *)
Lemma ltb_codeUnits (a b : string) :
  Js.compareUnits (Js.codeUnits a) (Js.codeUnits b) = Lt -> Js.ltb a b = true.
Proof. unfold Js.ltb, Js.compareStrings. now intros ->. Qed.

(** A character outside the basic plane is held as a surrogate pair,
    whose first unit (0xD83D here) is below the unit 0xFF5E of the
    fullwidth tilde: it is sorted first, although its code point is the
    larger one. *)
Example codeUnits_example :
  Js.codeUnits "😀.c" = [55357; 56832; 46; 99]%N
  /\ Js.codeUnits "～.c" = [65374; 46; 99]%N.
Proof. split; reflexivity. Qed.

Example sort_codeUnits_example :
  Js.sort ["～.c"; "😀.c"; "z.c"] = ["z.c"; "😀.c"; "～.c"]
  /\ createStringList ["～.c"; "😀.c"] None
     = "😀.c " ++ BACKSLASH ++ LF ++ "～.c" ++ LF.
Proof. split; reflexivity. Qed.
